(** * md-codeblocks: the indented-to-fenced code block converter

    A shallow embedding of [md_codeblock_converter.py] (class
    [MarkdownCodeBlockConverter]): the frontmatter detector, the block
    scanner, the unindenter and the rewriter, followed by the properties
    of the specification.

    Python strings are modelled by [string]; a character [ascii] stands
    for the code point of the same number (0..255), and [is_space] is
    [str.isspace] on these code points.  A document is split into lines
    with [split_nl] (Python's [content.split('\n')]) and joined back with
    [join_nl] (Python's ['\n'.join(lines)]).

    The file has three parts: the functions of the source, translated one
    by one; two views of them used in the proofs (the scanning loop as a
    state machine over three modes, and the rewriter as a single forward
    pass), proved equal to the translated functions; and the properties.
    The functions that read and write files and print are translated
    over an environment given by its operations, each of which may
    raise. *)

From Stdlib Require Import List String Ascii Arith ZArith Bool Lia
  Permutation.
Import ListNotations.
Open Scope string_scope.
Open Scope list_scope.
Open Scope nat_scope.

(** ** Strings as Python sees them *)

Module PyStr.

Definition nl : ascii := "010"%char.
Definition tab : ascii := "009"%char.

(** [str.isspace] on one character, for the code points below 256:
    TAB, LF, VT, FF, CR, FS, GS, RS, US, SPACE, NEL and NBSP. *)
Definition is_space (c : ascii) : bool :=
  let n := nat_of_ascii c in
  ((9 <=? n) && (n <=? 13)) || ((28 <=? n) && (n <=? 32))
  || (n =? 133) || (n =? 160).

(** [s.lstrip()] *)
Fixpoint lstrip (s : string) : string :=
  match s with
  | EmptyString => EmptyString
  | String c r => if is_space c then lstrip r else s
  end.

(** [s.rstrip()] *)
Fixpoint rstrip (s : string) : string :=
  match s with
  | EmptyString => EmptyString
  | String c r =>
      match rstrip r with
      | EmptyString => if is_space c then EmptyString else String c EmptyString
      | r' => String c r'
      end
  end.

(** [s.strip()] *)
Definition strip (s : string) : string := rstrip (lstrip s).

(** [s[n:]] *)
Fixpoint drop_chars (n : nat) (s : string) : string :=
  match n, s with
  | O, _ => s
  | S _, EmptyString => EmptyString
  | S m, String _ r => drop_chars m r
  end.

(** [s.startswith(p)] *)
Fixpoint startswith (s p : string) : bool :=
  match p with
  | EmptyString => true
  | String a p' =>
      match s with
      | EmptyString => false
      | String b s' => Ascii.eqb a b && startswith s' p'
      end
  end.

(** [s.split('\n')]: never the empty list. *)
Fixpoint split_nl (s : string) : list string :=
  match s with
  | EmptyString => [EmptyString]
  | String c r =>
      if Ascii.eqb c nl then EmptyString :: split_nl r
      else match split_nl r with
           | [] => [String c EmptyString]
           | l :: ls => String c l :: ls
           end
  end.

(** ['\n'.join(ls)] *)
Fixpoint join_nl (ls : list string) : string :=
  match ls with
  | [] => EmptyString
  | l :: rest =>
      match rest with
      | [] => l
      | _ :: _ => (l ++ String nl (join_nl rest))%string
      end
  end.

(** A line holds no newline character. *)
Fixpoint no_nl (s : string) : bool :=
  match s with
  | EmptyString => true
  | String c r => negb (Ascii.eqb c nl) && no_nl r
  end.

End PyStr.
Import PyStr.

(** ** The converter *)

Definition fence : string := "```".
Definition four_spaces : string := "    ".
Definition tab_str : string := String tab EmptyString.

(** [re.match(r'^```', line.strip())] *)
Definition is_fence (line : string) : bool := startswith (strip line) fence.

(** [re.match(r'^(    |\t+)', line)] *)
Definition is_indented (line : string) : bool :=
  startswith line four_spaces || startswith line tab_str.

(** [line.strip() == ''] *)
Definition is_blank (line : string) : bool :=
  match strip line with EmptyString => true | _ => false end.

(** *** detect_frontmatter_boundaries *)

(** [for i, line in enumerate(lines[1:], 1): if line.strip() == delim:
    return 0, i] with the counter [i] explicit. *)
Fixpoint find_closing (delim : string) (i : nat) (rest : list string)
  : option nat :=
  match rest with
  | [] => None
  | line :: rest' =>
      if String.eqb (strip line) delim then Some i
      else find_closing delim (S i) rest'
  end.

(** The pair [(None, None)] is [None]; a found range is [Some (0, i)]. *)
Definition detect_frontmatter_boundaries (content : string)
  : option (nat * nat) :=
  let lines := split_nl content in
  match lines with
  | [] => None
  | l0 :: rest =>
      if String.eqb (strip l0) "+++" then
        match find_closing "+++" 1 rest with
        | Some i => Some (0, i)
        | None => None
        end
      else if String.eqb (strip l0) "---" then
        match find_closing "---" 1 rest with
        | Some i => Some (0, i)
        | None => None
        end
      else None
  end.

(** *** detect_indented_code_blocks *)

(** A detected block: [(start_line, end_line, code_content)]. *)
Definition span : Type := nat * nat * string.
Definition span_start (b : span) : nat := fst (fst b).
Definition span_end (b : span) : nat := snd (fst b).
Definition span_content (b : span) : string := snd b.

(** The local variables of the scanning loop. *)
Record scan_state : Type := mk_state {
  code_blocks : list span;
  current_block_start : option nat;
  current_block_lines : list string;
  in_fenced_block : bool
}.

Definition init_state : scan_state := mk_state [] None [] false.

(** [while ls and ls[-1].strip() == '': ls.pop()] *)
Fixpoint trim_trailing_blank (ls : list string) : list string :=
  match ls with
  | [] => []
  | l :: r =>
      match trim_trailing_blank r with
      | [] => if is_blank l then [] else [l]
      | r' => l :: r'
      end
  end.

(** Trim the buffered lines and append the block if anything is left. *)
Definition finish_block (blocks : list span) (start : nat)
  (buf : list string) : list span :=
  let buf' := trim_trailing_blank buf in
  match buf' with
  | [] => blocks
  | _ :: _ => blocks ++ [(start, start + List.length buf' - 1, join_nl buf')]
  end.

(** [frontmatter_start is not None and
     frontmatter_start <= i <= frontmatter_end] *)
Definition in_frontmatter (fm : option (nat * nat)) (i : nat) : bool :=
  match fm with
  | Some (fs, fe) => (fs <=? i) && (i <=? fe)
  | None => false
  end.

(** One iteration of [for i, line in enumerate(lines)]. *)
Definition step (fm : option (nat * nat)) (st : scan_state) (i : nat)
  (line : string) : scan_state :=
  if in_frontmatter fm i then st
  else if is_fence line then
    match current_block_start st with
    | Some _ =>
        mk_state (code_blocks st) None [] (negb (in_fenced_block st))
    | None =>
        mk_state (code_blocks st) None (current_block_lines st)
          (negb (in_fenced_block st))
    end
  else if in_fenced_block st then st
  else
    match current_block_start st with
    | None =>
        if is_indented line
        then mk_state (code_blocks st) (Some i) [line] (in_fenced_block st)
        else st
    | Some start =>
        if is_indented line || is_blank line
        then mk_state (code_blocks st) (Some start)
               (current_block_lines st ++ [line]) (in_fenced_block st)
        else mk_state (finish_block (code_blocks st) start
                         (current_block_lines st))
               None [] (in_fenced_block st)
    end.

(** The loop, from index [i] on. *)
Fixpoint scan_loop (fm : option (nat * nat)) (i : nat) (lines : list string)
  (st : scan_state) : scan_state :=
  match lines with
  | [] => st
  | line :: rest => scan_loop fm (S i) rest (step fm st i line)
  end.

(** The handling after the loop: a block still open at the end. *)
Definition at_eof (st : scan_state) : list span :=
  match current_block_start st with
  | Some start =>
      if in_fenced_block st then code_blocks st
      else finish_block (code_blocks st) start (current_block_lines st)
  | None => code_blocks st
  end.

Definition detect_indented_code_blocks (content : string) : list span :=
  let lines := split_nl content in
  let fm := detect_frontmatter_boundaries content in
  at_eof (scan_loop fm 0 lines init_state).

(** *** unindent_code *)

Definition unindent_line (line : string) : string :=
  if startswith line four_spaces then drop_chars 4 line
  else if startswith line tab_str then drop_chars 1 line
  else line.

Definition unindent_code (code_content : string) : string :=
  let lines := split_nl code_content in
  let unindented_lines :=
    fold_left (fun acc line => acc ++ [unindent_line line]) lines [] in
  join_nl unindented_lines.

(** *** convert_to_fenced_blocks *)

(** [lines[a:b] = repl], with Python's clamping of the slice bounds. *)
Definition slice_assign (lines : list string) (a b : nat)
  (repl : list string) : list string :=
  firstn a lines ++ repl ++ skipn (Nat.max a b) lines.

Definition fenced_block (code_content : string) : list string :=
  [fence] ++ split_nl (unindent_code code_content) ++ [fence].

Definition replace_block (lines : list string) (b : span) : list string :=
  slice_assign lines (span_start b) (span_end b + 1)
    (fenced_block (span_content b)).

Definition convert_to_fenced_blocks (content : string) : string :=
  let lines := split_nl content in
  let blocks := detect_indented_code_blocks content in
  match blocks with
  | [] => content
  | _ :: _ => join_nl (fold_left replace_block (rev blocks) lines)
  end.

(** ** Documents and lines *)

(** A document given by its lines. *)
Definition doc (ls : list string) : string := join_nl ls.

(** Lines as [split_nl] gives them: none holds a newline. *)
Definition newline_free (ls : list string) : Prop :=
  Forall (fun l => no_nl l = true) ls.

(** The [while]-[pop] loop of the scanner on the reversed list: drop the
    leading blank lines. *)
Fixpoint pop_blank (rev_lines : list string) : list string :=
  match rev_lines with
  | [] => []
  | l :: r => if is_blank l then pop_blank r else rev_lines
  end.

(** ** The scanning loop as a state machine

    The loop variables [in_fenced_block], [current_block_start] and
    [current_block_lines] only occur in three shapes; [mode] names them,
    and [scan] lists the blocks the loop appends from a given mode on. *)

Inductive mode : Type :=
| Prose
| Fenced
| Block (start : nat) (buf : list string).

(** The mode the loop variables are in. *)
Definition mode_of (st : scan_state) : mode :=
  if in_fenced_block st then Fenced
  else match current_block_start st with
       | Some start => Block start (current_block_lines st)
       | None => Prose
       end.

(** The block that [finish_block] appends, if any. *)
Definition emit (start : nat) (buf : list string) : list span :=
  finish_block [] start buf.

(** One iteration on the modes: a fence line toggles the fence state and
    drops an open block; inside a fence nothing happens; otherwise an
    indented line opens or extends a block, a blank line extends one, and
    any other line closes it. *)
Definition next_mode (i : nat) (m : mode) (line : string) : mode :=
  if is_fence line then
    match m with Fenced => Prose | _ => Fenced end
  else
    match m with
    | Fenced => Fenced
    | Prose => if is_indented line then Block i [line] else Prose
    | Block start buf =>
        if is_indented line || is_blank line
        then Block start (buf ++ [line]) else Prose
    end.

(** The blocks one iteration appends. *)
Definition emitted (m : mode) (line : string) : list span :=
  if is_fence line then []
  else
    match m with
    | Block start buf =>
        if is_indented line || is_blank line then [] else emit start buf
    | _ => []
    end.

(** The blocks appended from line [i] on, the end of the document
    included. *)
Fixpoint scan (i : nat) (m : mode) (lines : list string) : list span :=
  match lines with
  | [] => match m with Block start buf => emit start buf | _ => [] end
  | line :: rest => emitted m line ++ scan (S i) (next_mode i m line) rest
  end.

(** Where scanning starts: after the frontmatter, if there is one. *)
Definition body_start (content : string) : nat :=
  match detect_frontmatter_boundaries content with
  | Some (_, fe) => S fe
  | None => 0
  end.

(** The state of the loop on arrival at line [j]. *)
Definition state_at (content : string) (j : nat) : scan_state :=
  scan_loop (detect_frontmatter_boundaries content) 0
    (firstn j (split_nl content)) init_state.

(** ** The rewriter as a single pass

    [rebuild] writes the output lines in one forward pass over the same
    state machine: the lines of an open block are held back until the
    block is finished (and fenced) or dropped at a fence line (and written
    as they were). *)

(** The lines written for a finished block: the fenced block and the
    trimmed blank lines after it, or the lines as they were when nothing
    but blank lines was buffered. *)
Definition emit_lines (buf : list string) : list string :=
  let core := trim_trailing_blank buf in
  match core with
  | [] => buf
  | _ :: _ =>
      fence :: map unindent_line core
        ++ fence :: skipn (List.length core) buf
  end.

(** The lines held back. *)
Definition pending (m : mode) : list string :=
  match m with Block _ buf => buf | _ => [] end.

(** The lines one iteration writes. *)
Definition written (m : mode) (line : string) : list string :=
  if is_fence line then pending m ++ [line]
  else
    match m with
    | Fenced => [line]
    | Prose => if is_indented line then [] else [line]
    | Block _ buf =>
        if is_indented line || is_blank line then []
        else emit_lines buf ++ [line]
    end.

(** The lines written from line [i] on. *)
Fixpoint rebuild (i : nat) (m : mode) (lines : list string) : list string :=
  match lines with
  | [] => match m with Block _ buf => emit_lines buf | _ => [] end
  | line :: rest => written m line ++ rebuild (S i) (next_mode i m line) rest
  end.

(** The replacements, last block first. *)
Definition apply_blocks (blocks : list span) (lines : list string)
  : list string :=
  fold_right (fun b acc => replace_block acc b) lines blocks.

(** An open block started on line [n]. *)
Definition block_at (m : mode) (n : nat) : Prop :=
  match m with Block start _ => start = n | _ => True end.

(** ** A second pass changes nothing *)

(** Two modes that differ in line numbers only. *)
Definition same_shape (m m' : mode) : Prop :=
  match m, m' with
  | Prose, Prose => True
  | Fenced, Fenced => True
  | Block _ b, Block _ b' => b = b'
  | _, _ => False
  end.

(** A line that the loop puts into an open block. *)
Definition block_line (l : string) : Prop :=
  is_fence l = false /\ is_indented l || is_blank l = true.

(** An open block holds such lines only. *)
Definition good_mode (m : mode) : Prop :=
  match m with Block _ buf => Forall block_line buf | _ => True end.

(** The mode in which a second pass meets the lines written from [m]. *)
Definition restart (m : mode) : mode :=
  match m with Fenced => Fenced | _ => Prose end.

(** A mode in which nothing but blank lines is held back. *)
Definition quiet (m : mode) : Prop :=
  match m with
  | Prose => True
  | Fenced => False
  | Block _ b => Forall (fun l => is_blank l = true) b
  end.

(** ** What the single pass keeps *)

(** The frontmatter detector on the line list. *)
Definition frontmatter_of_lines (lines : list string) : option (nat * nat) :=
  match lines with
  | [] => None
  | l0 :: rest =>
      if String.eqb (strip l0) "+++" then
        match find_closing "+++" 1 rest with
        | Some i => Some (0, i)
        | None => None
        end
      else if String.eqb (strip l0) "---" then
        match find_closing "---" 1 rest with
        | Some i => Some (0, i)
        | None => None
        end
      else None
  end.

(** How many lines strip to [d]. *)
Definition count_stripped (d : string) (ls : list string) : nat :=
  List.length (filter (fun l => String.eqb (strip l) d) ls).

(** ** The lines of the converted document *)

(** The frontmatter as it is, then the single pass over the rest. *)
Definition converted_lines (content : string) : list string :=
  firstn (body_start content) (split_nl content)
  ++ rebuild (body_start content) Prose
       (skipn (body_start content) (split_nl content)).

(** ** The shape of the detected blocks *)

(** A block read from [lines]: where it lies and what it holds. *)
Definition span_ok (lines : list string) (b : span) : Prop :=
  exists (pre core post : list string) (c : string) (cs : list string),
    lines = pre ++ core ++ post
    /\ core = c :: cs
    /\ span_start b = List.length pre
    /\ span_end b = List.length pre + List.length cs
    /\ span_content b = join_nl core
    /\ is_indented c = true
    /\ is_blank (last core EmptyString) = false
    /\ Forall block_line core.

(** The blocks come in the order of the lines, one after the other. *)
Fixpoint spans_from (lo : nat) (blocks : list span) : Prop :=
  match blocks with
  | [] => True
  | b :: rest => lo <= span_start b /\ spans_from (S (span_end b)) rest
  end.

(** An open block begins with an indented line and holds block lines. *)
Definition open_ok (m : mode) : Prop :=
  match m with
  | Block _ buf =>
      (exists b0 bs, buf = b0 :: bs /\ is_indented b0 = true)
      /\ Forall block_line buf
  | _ => True
  end.

(** The first line a block from mode [m] at line [i] can start on. *)
Definition low (m : mode) (i : nat) : nat :=
  match m with Prose => i | Fenced => S i | Block start _ => start end.

(** ** Where each input line ends up *)

(** [lines[start:end + 1]] of a block. *)
Definition lines_of (lines : list string) (b : span) : list string :=
  firstn (S (span_end b) - span_start b) (skipn (span_start b) lines).

(** [start_line <= j <= end_line] *)
Definition in_span (j : nat) (b : span) : bool :=
  (span_start b <=? j) && (j <=? span_end b).

(** The number of blocks that end before line [j]. *)
Definition blocks_before (blocks : list span) (j : nat) : nat :=
  List.length (filter (fun b => span_end b <? j) blocks).

(** ** The loop, line by line *)

(** What holds of the loop variables on arrival at line [i]. *)
Definition state_inv (i : nat) (st : scan_state) : Prop :=
  (forall b, In b (code_blocks st) -> span_end b < i)
  /\ match current_block_start st with
     | Some start =>
         start + List.length (current_block_lines st) = i
         /\ current_block_lines st <> []
         /\ in_fenced_block st = false
         /\ (forall b, In b (code_blocks st) -> span_end b < start)
     | None => True
     end.

(** No block is open. *)
Definition closed_mode (m : mode) : Prop :=
  match m with Block _ _ => False | _ => True end.

(** ** The file layer

    [find_markdown_files], [process_file] and [process_all_files] list a
    directory, read and write its files and print to standard output.
    Neither the file system nor the console is part of the repository:
    the first is a state [FS], the second a state [C], each with the
    operations the source calls on it, and every one of these calls may
    raise.  A path is the name of an entry of the directory.  Standard
    output is not one of the files of the directory: printing changes the
    console only. *)

(** The outcome of a call: the value returned, or what was raised.  [E]
    holds whatever can be raised, the instances of [Exception] and the
    others ([KeyboardInterrupt], [SystemExit]). *)
Inductive result (E A : Type) : Type :=
| Returned (a : A)
| Raised (e : E).

Arguments Returned {E A} a.
Arguments Raised {E A} e.

(** The arguments of the calls of [print], one constructor for each call
    of [process_file] and [process_all_files]: the values the printed
    text is made of.  Where the source prints [str(e)], the message holds
    [e]. *)
Inductive message (E : Type) : Type :=
| Msg_processed (name : string)
| Msg_no_changes (name : string)
| Msg_error_processing (name : string) (e : E)
| Msg_no_files
| Msg_found (n : nat)
| Msg_failed (name : string) (e : E)
| Msg_summary
| Msg_total (n : nat)
| Msg_modified (n : nat)
| Msg_errors (n : nat)
| Msg_unchanged (n : Z).

Arguments Msg_processed {E} name.
Arguments Msg_no_changes {E} name.
Arguments Msg_error_processing {E} name e.
Arguments Msg_no_files {E}.
Arguments Msg_found {E} n.
Arguments Msg_failed {E} name e.
Arguments Msg_summary {E}.
Arguments Msg_total {E} n.
Arguments Msg_modified {E} n.
Arguments Msg_errors {E} n.
Arguments Msg_unchanged {E} n.

(** The operations of the environment: [read_text fs p] is
    [open(p, 'r', encoding='utf-8').read()]; [write_text fs p t] is
    [open(p, 'w', encoding='utf-8').write(t)] with the file system it
    leaves, also when it raises; [iterdir fs] lists the entries of the
    directory, each with the answer of [is_file()], or raises what the
    listing or one of these answers raises; [print_out c m] is [print]
    of the message [m], [str(e)] included, with the console it leaves;
    [is_exception e] is [isinstance(e, Exception)]. *)
Record file_ops (FS C E : Type) : Type := mk_file_ops {
  read_text : FS -> string -> result E string;
  write_text : FS -> string -> string -> FS * result E unit;
  iterdir : FS -> result E (list (string * bool));
  print_out : C -> message E -> C * result E unit;
  is_exception : E -> bool
}.

Arguments read_text {FS C E} _ _ _.
Arguments write_text {FS C E} _ _ _ _.
Arguments iterdir {FS C E} _ _.
Arguments print_out {FS C E} _ _ _.
Arguments is_exception {FS C E} _ _.

(** The operations on paths: [Path.suffix] and [sorted]. *)
Record path_ops : Type := mk_path_ops {
  path_suffix : string -> string;
  sort_paths : list string -> list string
}.

(** *** Statements that act on the environment and may raise *)

(** A block of statements: from the file system and the console to the
    file system and the console it leaves, with its outcome. *)
Definition action (FS C E A : Type) : Type :=
  FS * C -> FS * C * result E A.

(** [return a] *)
Definition ret {FS C E A : Type} (a : A) : action FS C E A :=
  fun s => (s, Returned a).

(** [m] then [k]: what [m] raises ends the block. *)
Definition bind {FS C E A B : Type} (m : action FS C E A)
  (k : A -> action FS C E B) : action FS C E B :=
  fun s =>
    match m s with
    | (s', Returned a) => k a s'
    | (s', Raised e) => (s', Raised e)
    end.

Declare Scope action_scope.
Delimit Scope action_scope with action.
Bind Scope action_scope with action.

Notation "x <- m ;; k" := (bind m (fun x => k))
  (at level 61, m at next level, right associativity) : action_scope.
Notation "m ;; k" := (bind m (fun _ => k))
  (at level 61, right associativity) : action_scope.

Open Scope action_scope.

(** [try: body except Exception as e: handler]: the handler runs on what
    the body raises when it is an instance of [Exception], in the state
    the body left; anything else that is raised goes through. *)
Definition try_except {FS C E A : Type} (io : file_ops FS C E)
  (body : action FS C E A) (handler : E -> action FS C E A) :
  action FS C E A :=
  fun s =>
    match body s with
    | (s', Returned a) => (s', Returned a)
    | (s', Raised e) =>
        if is_exception io e then handler e s' else (s', Raised e)
    end.

(** [with open(file_path, 'r', encoding='utf-8') as f: f.read()] *)
Definition read_file {FS C E : Type} (io : file_ops FS C E)
  (file_path : string) : action FS C E string :=
  fun s => (s, read_text io (fst s) file_path).

(** [with open(file_path, 'w', encoding='utf-8') as f: f.write(text)] *)
Definition write_file {FS C E : Type} (io : file_ops FS C E)
  (file_path text : string) : action FS C E unit :=
  fun s =>
    ((fst (write_text io (fst s) file_path text), snd s),
     snd (write_text io (fst s) file_path text)).

(** [print(m)] *)
Definition print_line {FS C E : Type} (io : file_ops FS C E)
  (m : message E) : action FS C E unit :=
  fun s =>
    ((fst s, fst (print_out io (snd s) m)), snd (print_out io (snd s) m)).

(** [self.directory.iterdir()], with [is_file()] on each entry *)
Definition list_dir {FS C E : Type} (io : file_ops FS C E) :
  action FS C E (list (string * bool)) :=
  fun s => (s, iterdir io (fst s)).

(** *** The three functions *)

Definition markdown_extensions : list string :=
  [".md"; ".markdown"; ".mdown"; ".mkd"].

(** [str.lower] on one character, for the code points below 256: the
    letters A to Z, and the capital letters of Latin-1 (192 to 222, the
    multiplication sign 215 apart). *)
Definition lower_char (c : ascii) : ascii :=
  let n := nat_of_ascii c in
  if ((65 <=? n) && (n <=? 90))
     || ((192 <=? n) && (n <=? 222) && negb (n =? 215))
  then ascii_of_nat (n + 32) else c.

(** [s.lower()] *)
Fixpoint lower (s : string) : string :=
  match s with
  | EmptyString => EmptyString
  | String c r => String (lower_char c) (lower r)
  end.

(** [s in l] for a list of strings. *)
Definition in_list (s : string) (l : list string) : bool :=
  existsb (String.eqb s) l.

(** [file.is_file() and file.suffix.lower() in markdown_extensions] *)
Definition is_markdown_file (po : path_ops) (file : string * bool) : bool :=
  snd file && in_list (lower (path_suffix po (fst file))) markdown_extensions.

(** The loop of [find_markdown_files] over the entries listed, and
    [sorted] on the files it appended. *)
Definition markdown_files_among (po : path_ops)
  (entries : list (string * bool)) : list string :=
  let markdown_files :=
    fold_left
      (fun acc file =>
         if is_markdown_file po file then acc ++ [fst file] else acc)
      entries [] in
  sort_paths po markdown_files.

Definition find_markdown_files {FS C E : Type} (io : file_ops FS C E)
  (po : path_ops) : action FS C E (list string) :=
  entries <- list_dir io ;;
  ret (markdown_files_among po entries).

Definition process_file {FS C E : Type} (io : file_ops FS C E)
  (file_path : string) : action FS C E bool :=
  try_except io
    (original_content <- read_file io file_path ;;
     let converted_content := convert_to_fenced_blocks original_content in
     if negb (String.eqb original_content converted_content) then
       write_file io file_path converted_content ;;
       print_line io (Msg_processed file_path) ;;
       ret true
     else
       print_line io (Msg_no_changes file_path) ;;
       ret false)
    (fun e =>
       print_line io (Msg_error_processing file_path e) ;;
       ret false).

(** The dictionary [process_all_files] returns. *)
Record stats : Type := mk_stats {
  total : nat;
  processed : nat;
  errors : nat
}.

(** One iteration of [for file_path in markdown_files], from the two
    counters to the two counters. *)
Definition process_one {FS C E : Type} (io : file_ops FS C E)
  (file_path : string) (processed_count error_count : nat) :
  action FS C E (nat * nat) :=
  try_except io
    (modified <- process_file io file_path ;;
     ret (if modified : bool
          then (processed_count + 1, error_count)
          else (processed_count, error_count)))
    (fun e =>
       print_line io (Msg_failed file_path e) ;;
       ret (processed_count, error_count + 1)).

(** [for file_path in markdown_files: ...] *)
Fixpoint process_loop {FS C E : Type} (io : file_ops FS C E)
  (markdown_files : list string) (processed_count error_count : nat) :
  action FS C E (nat * nat) :=
  match markdown_files with
  | [] => ret (processed_count, error_count)
  | file_path :: rest =>
      counts <- process_one io file_path processed_count error_count ;;
      process_loop io rest (fst counts) (snd counts)
  end.

(** [results['total'] - results['processed'] - results['errors']], on
    Python's integers. *)
Definition unchanged_count (results : stats) : Z :=
  (Z.of_nat (total results) - Z.of_nat (processed results)
   - Z.of_nat (errors results))%Z.

Definition process_all_files {FS C E : Type} (io : file_ops FS C E)
  (po : path_ops) : action FS C E stats :=
  markdown_files <- find_markdown_files io po ;;
  match markdown_files with
  | [] =>
      print_line io Msg_no_files ;;
      ret (mk_stats 0 0 0)
  | _ :: _ =>
      print_line io (Msg_found (List.length markdown_files)) ;;
      counts <- process_loop io markdown_files 0 0 ;;
      let results :=
        mk_stats (List.length markdown_files) (fst counts) (snd counts) in
      print_line io Msg_summary ;;
      print_line io (Msg_total (total results)) ;;
      print_line io (Msg_modified (processed results)) ;;
      print_line io (Msg_errors (errors results)) ;;
      print_line io (Msg_unchanged (unchanged_count results)) ;;
      ret results
  end.

(** *** What is assumed of the environment, where it is *)

(** A text written without an exception is the text read afterwards. *)
Definition write_then_read {FS C E : Type} (io : file_ops FS C E) : Prop :=
  forall fs p t fs',
    write_text io fs p t = (fs', Returned tt) ->
    read_text io fs' p = Returned t.

(** Writing one file, with or without an exception, leaves what is read
    from every other file. *)
Definition write_keeps_others {FS C E : Type} (io : file_ops FS C E) :
  Prop :=
  forall fs p t q,
    q <> p -> read_text io (fst (write_text io fs p t)) q = read_text io fs q.

(** Writing a file of the directory leaves the listing of the directory. *)
Definition write_keeps_listing {FS C E : Type} (io : file_ops FS C E) :
  Prop :=
  forall fs p t entries,
    iterdir io fs = Returned entries -> In p (map fst entries) ->
    iterdir io (fst (write_text io fs p t)) = Returned entries.

(** No write raises. *)
Definition writes_succeed {FS C E : Type} (io : file_ops FS C E) : Prop :=
  forall fs p t, snd (write_text io fs p t) = Returned tt.

(** No call of [print] raises. *)
Definition prints_succeed {FS C E : Type} (io : file_ops FS C E) : Prop :=
  forall c m, snd (print_out io c m) = Returned tt.

(** What a read or a write raises is an instance of [Exception]. *)
Definition raises_exceptions {FS C E : Type} (io : file_ops FS C E) :
  Prop :=
  (forall fs p e, read_text io fs p = Raised e -> is_exception io e = true)
  /\ (forall fs p t e,
        snd (write_text io fs p t) = Raised e -> is_exception io e = true).

(** [sorted] gives the same paths in some order. *)
Definition sort_permutes (po : path_ops) : Prop :=
  forall l, Permutation (sort_paths po l) l.

(** The text a file holds after a run that converts it. *)
Definition converted_text {E : Type} (r : result E string) :
  result E string :=
  match r with
  | Returned t => Returned (convert_to_fenced_blocks t)
  | Raised e => Raised e
  end.

(** The file can be read and its text has an indented block. *)
Definition has_block {FS C E : Type} (io : file_ops FS C E) (fs : FS)
  (p : string) : bool :=
  match read_text io fs p with
  | Returned t =>
      match detect_indented_code_blocks t with [] => false | _ :: _ => true end
  | Raised _ => false
  end.

(** The file system a block of statements leaves, and its outcome. *)
Definition files_after {FS C E A : Type} (r : FS * C * result E A) : FS :=
  fst (fst r).

Definition outcome {FS C E A : Type} (r : FS * C * result E A) :
  result E A :=
  snd r.

(** A block of statements keeps a property of the file system. *)
Definition keeps {FS C E A : Type} (I : FS -> Prop)
  (m : action FS C E A) : Prop :=
  forall fs c, I fs -> I (files_after (m (fs, c))).

(** The part of [process_all_files] that follows the listing. *)
Definition process_found {FS C E : Type} (io : file_ops FS C E)
  (markdown_files : list string) : action FS C E stats :=
  match markdown_files with
  | [] =>
      print_line io Msg_no_files ;;
      ret (mk_stats 0 0 0)
  | _ :: _ =>
      print_line io (Msg_found (List.length markdown_files)) ;;
      counts <- process_loop io markdown_files 0 0 ;;
      let results :=
        mk_stats (List.length markdown_files) (fst counts) (snd counts) in
      print_line io Msg_summary ;;
      print_line io (Msg_total (total results)) ;;
      print_line io (Msg_modified (processed results)) ;;
      print_line io (Msg_errors (errors results)) ;;
      print_line io (Msg_unchanged (unchanged_count results)) ;;
      ret results
  end.

(** *** An environment for the examples

    The file system holds the names and texts of the files of one
    directory, every entry a regular file, every write allowed; a file
    that is not there cannot be read. *)

Inductive py_error : Type :=
| FileNotFoundError
| UnicodeEncodeError
| KeyboardInterrupt.

(** [isinstance(e, Exception)] *)
Definition py_is_exception (e : py_error) : bool :=
  match e with
  | KeyboardInterrupt => false
  | _ => true
  end.

Definition mem_fs : Type := list (string * string).

Fixpoint mem_read (fs : mem_fs) (p : string) : result py_error string :=
  match fs with
  | [] => Raised FileNotFoundError
  | (name, text) :: rest =>
      if String.eqb name p then Returned text else mem_read rest p
  end.

Fixpoint mem_update (fs : mem_fs) (p t : string) : mem_fs :=
  match fs with
  | [] => [(p, t)]
  | (name, text) :: rest =>
      if String.eqb name p then (name, t) :: rest
      else (name, text) :: mem_update rest p t
  end.

(** A console that keeps what is printed, last message first. *)
Definition log : Type := list (message py_error).

Definition mem_ops : file_ops mem_fs log py_error :=
  mk_file_ops mem_fs log py_error
    mem_read
    (fun fs p t => (mem_update fs p t, Returned tt))
    (fun fs => Returned (map (fun e => (fst e, true)) fs))
    (fun c m => (m :: c, Returned tt))
    py_is_exception.

(** A console that follows a script: each call of [print] takes the next
    answer of the script, [Some e] to raise [e], and a call after the end
    of the script prints. *)
Definition script : Type := list (option py_error).

Definition scripted_print (c : script) (m : message py_error) :
  script * result py_error unit :=
  match c with
  | [] => ([], Returned tt)
  | None :: rest => (rest, Returned tt)
  | Some e :: rest => (rest, Raised e)
  end.

Definition scripted_ops : file_ops mem_fs script py_error :=
  mk_file_ops mem_fs script py_error
    mem_read
    (fun fs p t => (mem_update fs p t, Returned tt))
    (fun fs => Returned (map (fun e => (fst e, true)) fs))
    scripted_print
    py_is_exception.

(** The characters after the last dot of a name, the dot included (none
    when the name has no dot): enough of [Path.suffix] for the examples. *)
Fixpoint last_dot_suffix (name : string) : string :=
  match name with
  | EmptyString => EmptyString
  | String c r =>
      match last_dot_suffix r with
      | EmptyString => if Ascii.eqb c "."%char then name else EmptyString
      | s => s
      end
  end.

Definition example_path_ops : path_ops :=
  mk_path_ops last_dot_suffix (fun l => l).

Definition dir_example : mem_fs :=
  [("a.md", doc ["# A"; EmptyString; "    x = 1"; EmptyString]);
   ("b.MD", doc ["# B"; EmptyString; "prose"]);
   ("notes.txt", doc ["    kept as it is"])].

(** ** The documents of the examples *)

Definition doc_fence_in_frontmatter : string :=
  doc ["---"; "```"; "    k: v"; "---"; "    code"].


Definition doc_frontmatter : string :=
  doc ["+++"; "    key = 1"; "+++"; EmptyString; "    code"; EmptyString].

Definition doc_fenced : string :=
  doc ["    a"; "t"; "```"; "    x"; "```"].

Definition code_nested : string :=
  doc ["    def f():"; "        return 1"; EmptyString; String tab "x"].

Definition doc_interrupted : string :=
  doc ["    a"; "    b"; "```"; "x"; "```"; "    c"].

Definition doc_two_blocks : string :=
  doc ["---"; "    k: v"; "---"; "    a"; EmptyString; "    b"; "t";
       "```"; "    x"; "```"; String tab "c"; EmptyString].

Definition doc_padded_frontmatter : string := doc [" +++"; "+++ "; "a"].

Definition doc_nested_delimiters : string :=
  doc ["---"; "+++"; " --- "; "---"; "x"].

Definition doc_blank_start : string := doc ["    "; "    x"].

Definition doc_tab_blank_start : string :=
  doc [tab_str; String tab "x"].

Definition doc_blank_only : string :=
  doc [EmptyString; "    "; "  "; String tab EmptyString; EmptyString].

(** ** Checks on the scenarios of the documentation *)

Example scenario_1 :
  detect_indented_code_blocks (doc ["# T"; EmptyString; "    a = 1"; EmptyString])
    = [(2, 2, "    a = 1")]
  /\ convert_to_fenced_blocks (doc ["# T"; EmptyString; "    a = 1"; EmptyString])
    = doc ["# T"; EmptyString; "```"; "a = 1"; "```"; EmptyString].
Proof. split; reflexivity. Qed.

Example scenario_4 :
  convert_to_fenced_blocks
    (doc ["+++"; "key = 1"; "+++"; EmptyString; "    code"; EmptyString])
  = doc ["+++"; "key = 1"; "+++"; EmptyString; "```"; "code"; "```"; EmptyString].
Proof. reflexivity. Qed.

(** ** Facts on splitting, joining and stripping *)

Section StringFacts.

Lemma split_nl_not_nil (s : string) : split_nl s <> [].
Proof.
  destruct s as [|c r]; simpl; [discriminate|].
  destruct (Ascii.eqb c nl); [discriminate|].
  destruct (split_nl r); discriminate.
Qed.

Lemma split_nl_length_pos (s : string) : 0 < List.length (split_nl s).
Proof.
  pose proof (split_nl_not_nil s) as H.
  destruct (split_nl s); [congruence | simpl; lia].
Qed.

Lemma join_nl_cons (l : string) (ls : list string) :
  ls <> [] -> join_nl (l :: ls) = (l ++ String nl (join_nl ls))%string.
Proof. destruct ls; [congruence | reflexivity]. Qed.

Lemma join_split (s : string) : join_nl (split_nl s) = s.
Proof.
  induction s as [|c r IH]; [reflexivity|].
  cbn [split_nl].
  destruct (Ascii.eqb_spec c nl) as [->|Hc].
  - rewrite join_nl_cons by apply split_nl_not_nil.
    now rewrite IH.
  - pose proof (split_nl_not_nil r) as Hne.
    destruct (split_nl r) as [|l ls]; [congruence|].
    destruct ls as [|l' ls'].
    + simpl in *. now rewrite IH.
    + rewrite <- IH. rewrite !join_nl_cons by discriminate. reflexivity.
Qed.

Lemma split_nl_app_line (l : string) (r : string) :
  no_nl l = true ->
  split_nl (l ++ String nl r) = l :: split_nl r.
Proof.
  induction l as [|c l IH]; intros H; simpl in *.
  - reflexivity.
  - apply andb_prop in H as [Hc Hl].
    destruct (Ascii.eqb c nl); [discriminate|].
    now rewrite IH.
Qed.

Lemma split_nl_line (l : string) : no_nl l = true -> split_nl l = [l].
Proof.
  induction l as [|c l IH]; intros H; simpl in *; [reflexivity|].
  apply andb_prop in H as [Hc Hl].
  destruct (Ascii.eqb c nl); [discriminate|].
  now rewrite IH.
Qed.

Lemma split_join (ls : list string) :
  ls <> [] -> newline_free ls -> split_nl (join_nl ls) = ls.
Proof.
  induction ls as [|l ls IH]; intros Hne Hf; [congruence|].
  inversion Hf as [|? ? Hl Hls]; subst.
  destruct ls as [|l' ls'].
  - simpl. now apply split_nl_line.
  - rewrite join_nl_cons by discriminate.
    rewrite split_nl_app_line by assumption.
    now rewrite IH.
Qed.

Lemma split_nl_newline_free (s : string) : newline_free (split_nl s).
Proof.
  induction s as [|c r IH]; simpl.
  - repeat constructor.
  - destruct (Ascii.eqb c nl) eqn:E.
    + constructor; [reflexivity | exact IH].
    + destruct (split_nl r) as [|l ls].
      * constructor; [simpl; now rewrite E | constructor].
      * inversion IH; subst. constructor; [|assumption].
        simpl. rewrite E. assumption.
Qed.

Lemma newline_free_app (a b : list string) :
  newline_free (a ++ b) <-> newline_free a /\ newline_free b.
Proof. apply Forall_app. Qed.

Lemma newline_free_firstn (n : nat) (ls : list string) :
  newline_free ls -> newline_free (firstn n ls).
Proof.
  intros H. rewrite <- (firstn_skipn n ls) in H.
  now apply Forall_app in H.
Qed.

Lemma newline_free_skipn (n : nat) (ls : list string) :
  newline_free ls -> newline_free (skipn n ls).
Proof.
  intros H. rewrite <- (firstn_skipn n ls) in H.
  now apply Forall_app in H.
Qed.

(** Stripping ignores a leading whitespace character. *)
Lemma strip_space_cons (c : ascii) (s : string) :
  is_space c = true -> strip (String c s) = strip s.
Proof. intros H. unfold strip. simpl. now rewrite H. Qed.

Lemma startswith_decompose (p s : string) :
  startswith s p = true ->
  s = (p ++ drop_chars (String.length p) s)%string.
Proof.
  revert s. induction p as [|a p IH]; intros s H; [reflexivity|].
  destruct s as [|b s]; [discriminate|].
  simpl in H. apply andb_prop in H as [Hab Hp].
  apply Ascii.eqb_eq in Hab. subst b.
  simpl. f_equal. now apply IH.
Qed.

Lemma startswith_four_spaces (s : string) :
  startswith s four_spaces = true ->
  s = (four_spaces ++ drop_chars 4 s)%string.
Proof. apply startswith_decompose. Qed.

Lemma startswith_tab (s : string) :
  startswith s tab_str = true -> s = String tab (drop_chars 1 s).
Proof. apply (startswith_decompose tab_str). Qed.

Lemma strip_unindent_line (l : string) : strip (unindent_line l) = strip l.
Proof.
  unfold unindent_line.
  destruct (startswith l four_spaces) eqn:E4.
  - apply startswith_four_spaces in E4.
    rewrite E4 at 2. unfold four_spaces. simpl append.
    now rewrite !strip_space_cons by reflexivity.
  - destruct (startswith l tab_str) eqn:Et; [|reflexivity].
    apply startswith_tab in Et. rewrite Et at 2.
    now rewrite strip_space_cons by reflexivity.
Qed.

Lemma is_fence_unindent_line (l : string) :
  is_fence (unindent_line l) = is_fence l.
Proof. unfold is_fence. now rewrite strip_unindent_line. Qed.

Lemma is_blank_unindent_line (l : string) :
  is_blank (unindent_line l) = is_blank l.
Proof. unfold is_blank. now rewrite strip_unindent_line. Qed.

Lemma is_fence_fence : is_fence fence = true.
Proof. reflexivity. Qed.

Lemma is_fence_not_blank (l : string) :
  is_fence l = true -> is_blank l = false.
Proof.
  unfold is_fence, is_blank. destruct (strip l); [discriminate | reflexivity].
Qed.

Lemma no_nl_drop_chars (n : nat) (s : string) :
  no_nl s = true -> no_nl (drop_chars n s) = true.
Proof.
  revert s. induction n as [|n IH]; intros s H; [assumption|].
  destruct s as [|c r]; [reflexivity|].
  simpl in *. apply andb_prop in H as [_ H]. now apply IH.
Qed.

Lemma no_nl_unindent_line (l : string) :
  no_nl l = true -> no_nl (unindent_line l) = true.
Proof.
  intros H. unfold unindent_line.
  destruct (startswith l four_spaces); [now apply no_nl_drop_chars|].
  destruct (startswith l tab_str); [now apply no_nl_drop_chars | assumption].
Qed.

Lemma newline_free_map_unindent (ls : list string) :
  newline_free ls -> newline_free (map unindent_line ls).
Proof.
  intros H. apply Forall_map.
  eapply Forall_impl; [|exact H]. intros l. apply no_nl_unindent_line.
Qed.

Lemma fold_left_append_map {A B : Type} (f : A -> B) (ls : list A)
  (acc : list B) :
  fold_left (fun acc x => acc ++ [f x]) ls acc = acc ++ map f ls.
Proof.
  revert acc. induction ls as [|x ls IH]; intros acc; simpl.
  - now rewrite app_nil_r.
  - rewrite IH, <- app_assoc. reflexivity.
Qed.

(** The unindenter works line by line. *)
Lemma unindent_code_lines (s : string) :
  unindent_code s = join_nl (map unindent_line (split_nl s)).
Proof. unfold unindent_code. now rewrite fold_left_append_map. Qed.

Lemma split_unindent_code (s : string) :
  split_nl (unindent_code s) = map unindent_line (split_nl s).
Proof.
  rewrite unindent_code_lines. apply split_join.
  - pose proof (split_nl_not_nil s). destruct (split_nl s); [congruence|discriminate].
  - apply newline_free_map_unindent, split_nl_newline_free.
Qed.

Lemma fenced_block_join (ls : list string) :
  ls <> [] -> newline_free ls ->
  fenced_block (join_nl ls) = fence :: map unindent_line ls ++ [fence].
Proof.
  intros Hne Hf. unfold fenced_block.
  rewrite split_unindent_code, split_join by assumption. reflexivity.
Qed.

End StringFacts.

(** ** Facts on the scanning loop *)

Section ScanFacts.

Lemma finish_block_emit (blocks : list span) (start : nat)
  (buf : list string) :
  finish_block blocks start buf = blocks ++ emit start buf.
Proof.
  unfold emit, finish_block.
  destruct (trim_trailing_blank buf); [now rewrite app_nil_r | reflexivity].
Qed.

Lemma step_code_blocks (fm : option (nat * nat)) (st : scan_state)
  (i : nat) (line : string) :
  in_frontmatter fm i = false ->
  code_blocks (step fm st i line)
  = code_blocks st ++ emitted (mode_of st) line.
Proof.
  intros Hfm. unfold step, emitted, mode_of. rewrite Hfm.
  destruct (is_fence line).
  - destruct (current_block_start st); simpl; now rewrite app_nil_r.
  - destruct (in_fenced_block st); [now rewrite app_nil_r|].
    destruct (current_block_start st) as [start|].
    + destruct (is_indented line || is_blank line); simpl.
      * now rewrite app_nil_r.
      * apply finish_block_emit.
    + destruct (is_indented line); simpl; now rewrite app_nil_r.
Qed.

Lemma step_mode (fm : option (nat * nat)) (st : scan_state)
  (i : nat) (line : string) :
  in_frontmatter fm i = false ->
  mode_of (step fm st i line) = next_mode i (mode_of st) line.
Proof.
  intros Hfm. unfold step, next_mode, mode_of. rewrite Hfm.
  destruct (is_fence line).
  - destruct (in_fenced_block st), (current_block_start st); reflexivity.
  - destruct (in_fenced_block st) eqn:Ef; [now rewrite Ef|].
    destruct (current_block_start st) as [start|] eqn:Ec.
    + destruct (is_indented line || is_blank line); simpl; now rewrite ?Ef.
    + destruct (is_indented line) eqn:Ei; simpl; now rewrite ?Ef, ?Ec.
Qed.

Lemma at_eof_mode (st : scan_state) :
  at_eof st = code_blocks st ++ scan 0 (mode_of st) [].
Proof.
  unfold at_eof, mode_of. simpl.
  destruct (current_block_start st) as [start|].
  - destruct (in_fenced_block st); [now rewrite app_nil_r|].
    apply finish_block_emit.
  - destruct (in_fenced_block st); now rewrite app_nil_r.
Qed.

Lemma scan_nil_index (i j : nat) (m : mode) : scan i m [] = scan j m [].
Proof. reflexivity. Qed.

(** Past the frontmatter, the loop appends exactly the blocks of [scan]. *)
Lemma scan_loop_scan (fm : option (nat * nat)) (lines : list string) :
  forall (i : nat) (st : scan_state),
    (forall j, i <= j -> in_frontmatter fm j = false) ->
    at_eof (scan_loop fm i lines st)
    = code_blocks st ++ scan i (mode_of st) lines.
Proof.
  induction lines as [|line rest IH]; intros i st Hfm.
  - simpl scan_loop. rewrite at_eof_mode. reflexivity.
  - simpl scan_loop. rewrite IH by (intros j Hj; apply Hfm; lia).
    rewrite step_code_blocks, step_mode by (apply Hfm; lia).
    simpl scan. now rewrite app_assoc.
Qed.

Lemma scan_loop_app (fm : option (nat * nat)) (a b : list string) :
  forall (i : nat) (st : scan_state),
    scan_loop fm i (a ++ b) st
    = scan_loop fm (i + List.length a) b (scan_loop fm i a st).
Proof.
  induction a as [|l a IH]; intros i st; simpl.
  - now rewrite Nat.add_0_r.
  - rewrite IH. f_equal. lia.
Qed.

(** Inside the frontmatter the loop does nothing. *)
Lemma scan_loop_frontmatter (fm : option (nat * nat)) (a : list string) :
  forall (i : nat) (st : scan_state),
    (forall j, i <= j < i + List.length a -> in_frontmatter fm j = true) ->
    scan_loop fm i a st = st.
Proof.
  induction a as [|l a IH]; intros i st H; simpl; [reflexivity|].
  unfold step at 1. rewrite H by (simpl; lia).
  apply IH. intros j Hj. apply H. simpl. lia.
Qed.

Lemma find_closing_bounds (delim : string) (rest : list string) :
  forall i e, find_closing delim i rest = Some e ->
              i <= e < i + List.length rest.
Proof.
  induction rest as [|l rest IH]; intros i e H; simpl in *; [discriminate|].
  destruct (String.eqb (strip l) delim).
  - inversion H; subst. lia.
  - apply IH in H. lia.
Qed.

(** A frontmatter range starts at line 0 and ends on a line of the
    document after line 0. *)
Lemma frontmatter_range (content : string) (fs fe : nat) :
  detect_frontmatter_boundaries content = Some (fs, fe) ->
  fs = 0 /\ 1 <= fe < List.length (split_nl content).
Proof.
  unfold detect_frontmatter_boundaries.
  destruct (split_nl content) as [|l0 rest]; [discriminate|].
  destruct (String.eqb (strip l0) "+++").
  - destruct (find_closing "+++" 1 rest) as [e|] eqn:E; [|discriminate].
    intros H. inversion H; subst. apply find_closing_bounds in E. simpl. lia.
  - destruct (String.eqb (strip l0) "---"); [|discriminate].
    destruct (find_closing "---" 1 rest) as [e|] eqn:E; [|discriminate].
    intros H. inversion H; subst. apply find_closing_bounds in E. simpl. lia.
Qed.

Lemma body_start_le (content : string) :
  body_start content <= List.length (split_nl content).
Proof.
  unfold body_start.
  destruct (detect_frontmatter_boundaries content) as [[fs fe]|] eqn:E;
    [|lia].
  apply frontmatter_range in E. lia.
Qed.

Lemma in_frontmatter_body (content : string) (j : nat) :
  in_frontmatter (detect_frontmatter_boundaries content) j
  = (j <? body_start content).
Proof.
  unfold body_start, in_frontmatter.
  destruct (detect_frontmatter_boundaries content) as [[fs fe]|] eqn:E.
  - apply frontmatter_range in E. destruct E as [-> _]. simpl.
    destruct (j <=? fe) eqn:E1, (j <? S fe) eqn:E2; try reflexivity.
    + apply Nat.leb_le in E1. apply Nat.ltb_ge in E2. lia.
    + apply Nat.leb_gt in E1. apply Nat.ltb_lt in E2. lia.
  - reflexivity.
Qed.

Lemma state_at_frontmatter (content : string) (j : nat) :
  j <= body_start content -> state_at content j = init_state.
Proof.
  intros Hj. unfold state_at. apply scan_loop_frontmatter.
  intros i Hi. rewrite in_frontmatter_body. apply Nat.ltb_lt.
  pose proof (firstn_le_length j (split_nl content)). lia.
Qed.

Lemma detect_from_state (content : string) (j : nat) :
  body_start content <= j ->
  j <= List.length (split_nl content) ->
  detect_indented_code_blocks content
  = code_blocks (state_at content j)
    ++ scan j (mode_of (state_at content j)) (skipn j (split_nl content)).
Proof.
  intros Hk Hj. unfold detect_indented_code_blocks, state_at.
  rewrite <- (firstn_skipn j (split_nl content)) at 1.
  rewrite scan_loop_app. simpl plus.
  rewrite length_firstn, Nat.min_l by assumption.
  apply scan_loop_scan.
  intros i Hi. rewrite in_frontmatter_body. apply Nat.ltb_ge. lia.
Qed.

(** The detector is the scan of the lines after the frontmatter. *)
Lemma detect_scan (content : string) :
  detect_indented_code_blocks content
  = scan (body_start content) Prose
      (skipn (body_start content) (split_nl content)).
Proof.
  rewrite (detect_from_state content (body_start content))
    by auto using body_start_le.
  rewrite state_at_frontmatter by lia. reflexivity.
Qed.

End ScanFacts.

(** ** Facts on the rewriter *)

Section RewriteFacts.

Lemma fold_left_rev_replace (blocks : list span) (lines : list string) :
  fold_left replace_block (rev blocks) lines = apply_blocks blocks lines.
Proof.
  unfold apply_blocks.
  rewrite <- (fold_left_rev_right (fun b acc => replace_block acc b)).
  now rewrite rev_involutive.
Qed.

Lemma apply_blocks_app (a b : list span) (lines : list string) :
  apply_blocks (a ++ b) lines = apply_blocks a (apply_blocks b lines).
Proof. unfold apply_blocks. apply fold_right_app. Qed.

Lemma pop_blank_snoc (a : list string) (l : string) :
  pop_blank (a ++ [l])
  = match pop_blank a with
    | [] => if is_blank l then [] else [l]
    | x :: r => (x :: r) ++ [l]
    end.
Proof.
  induction a as [|x a IH]; simpl.
  - destruct (is_blank l); reflexivity.
  - destruct (is_blank x); [exact IH | reflexivity].
Qed.

(** [trim_trailing_blank] is the [while]-[pop] loop of the source: it
    drops the blank lines at the end, one by one from the last. *)
Lemma trim_trailing_blank_pop (ls : list string) :
  trim_trailing_blank ls = rev (pop_blank (rev ls)).
Proof.
  induction ls as [|l r IH]; [reflexivity|].
  simpl. rewrite pop_blank_snoc, IH.
  destruct (pop_blank (rev r)) as [|x t] eqn:E.
  - simpl. destruct (is_blank l); reflexivity.
  - rewrite rev_app_distr. simpl.
    destruct (rev t ++ [x]) eqn:E2; [|reflexivity].
    destruct (rev t); discriminate.
Qed.

Lemma trim_split (buf : list string) :
  buf = trim_trailing_blank buf
        ++ skipn (List.length (trim_trailing_blank buf)) buf.
Proof.
  induction buf as [|l r IH]; [reflexivity|].
  simpl. destruct (trim_trailing_blank r) as [|x r'] eqn:E.
  - destruct (is_blank l); reflexivity.
  - simpl in *. f_equal. exact IH.
Qed.

Lemma trim_length_le (buf : list string) :
  List.length (trim_trailing_blank buf) <= List.length buf.
Proof.
  pose proof (f_equal (@List.length string) (trim_split buf)) as H.
  rewrite length_app in H. lia.
Qed.

Lemma trim_newline_free (buf : list string) :
  newline_free buf -> newline_free (trim_trailing_blank buf).
Proof.
  intros H. unfold newline_free in H. rewrite (trim_split buf) in H.
  now apply Forall_app in H.
Qed.

(** Replacing a finished block inside the lines it was read from. *)
Lemma replace_block_emit (pre0 buf rest : list string) :
  newline_free buf ->
  apply_blocks (emit (List.length pre0) buf) (pre0 ++ buf ++ rest)
  = pre0 ++ emit_lines buf ++ rest.
Proof.
  intros Hnf. unfold emit, finish_block, emit_lines.
  pose proof (trim_split buf) as Hsplit.
  pose proof (trim_newline_free buf Hnf) as Hcore.
  pose proof (trim_length_le buf) as Hle.
  destruct (trim_trailing_blank buf) as [|c core0] eqn:E; [reflexivity|].
  remember (c :: core0) as core eqn:Ecore.
  assert (Hpos : 0 < List.length core) by (subst core; simpl; lia).
  assert (Hne : core <> []) by (subst core; discriminate).
  cbn [app]. unfold apply_blocks. cbn [fold_right].
  unfold replace_block, slice_assign, span_start, span_end, span_content.
  cbn [fst snd].
  rewrite fenced_block_join by assumption.
  rewrite firstn_app, firstn_all, Nat.sub_diag, firstn_O, app_nil_r.
  rewrite Nat.max_r by lia.
  rewrite skipn_app.
  rewrite skipn_all2 by lia.
  replace (List.length pre0 + List.length core - 1 + 1
           - List.length pre0) with (List.length core) by lia.
  rewrite skipn_app.
  replace (List.length core - List.length buf) with 0 by lia.
  cbn [skipn app]. rewrite <- !app_assoc. reflexivity.
Qed.

(** The replacements of the detected blocks, done last block first, give
    the lines of the single forward pass. *)
Lemma apply_blocks_rebuild (lines : list string) :
  forall (pre0 : list string) (m : mode) (i : nat),
    i = List.length (pre0 ++ pending m) ->
    block_at m (List.length pre0) ->
    newline_free (pending m ++ lines) ->
    apply_blocks (scan i m lines) ((pre0 ++ pending m) ++ lines)
    = pre0 ++ rebuild i m lines.
Proof.
  induction lines as [|l rest IH]; intros pre0 m i Hi Hat Hnf.
  - rewrite app_nil_r in *. destruct m as [| |start buf]; simpl in *;
      rewrite ?app_nil_r; try reflexivity.
    subst start.
    pose proof (replace_block_emit pre0 buf [] Hnf) as H.
    now rewrite !app_nil_r in H.
  - simpl scan. simpl rebuild. unfold emitted, written, next_mode.
    destruct (is_fence l) eqn:Ef.
    + (* a fence line: nothing emitted, any open block dropped *)
      simpl app at 1.
      assert (Hnext : pending (match m with Fenced => Prose | _ => Fenced end)
                      = []) by (destruct m; reflexivity).
      specialize (IH (pre0 ++ pending m ++ [l])
                    (match m with Fenced => Prose | _ => Fenced end) (S i)).
      rewrite Hnext, app_nil_r in IH.
      replace ((pre0 ++ pending m) ++ l :: rest)
        with ((pre0 ++ pending m ++ [l]) ++ rest)
        by (rewrite <- !app_assoc; reflexivity).
      rewrite IH.
      * rewrite <- !app_assoc. reflexivity.
      * subst i. rewrite !length_app. simpl. lia.
      * destruct m; exact I.
      * apply Forall_app in Hnf as [_ Hnf]. now inversion Hnf.
    + destruct m as [| |start buf].
      * (* prose *)
        simpl pending in *. rewrite app_nil_r in *.
        destruct (is_indented l) eqn:Ei.
        -- simpl app at 1.
           specialize (IH pre0 (Block i [l]) (S i)).
           simpl pending in IH.
           replace (pre0 ++ l :: rest) with ((pre0 ++ [l]) ++ rest)
             by (rewrite <- app_assoc; reflexivity).
           apply IH.
           ++ subst i. rewrite length_app. simpl. lia.
           ++ simpl. assumption.
           ++ exact Hnf.
        -- simpl app at 1.
           specialize (IH (pre0 ++ [l]) Prose (S i)).
           simpl pending in IH. rewrite app_nil_r in IH.
           replace (pre0 ++ l :: rest) with ((pre0 ++ [l]) ++ rest)
             by (rewrite <- app_assoc; reflexivity).
           rewrite IH.
           ++ rewrite <- app_assoc. reflexivity.
           ++ subst i. rewrite length_app. simpl. lia.
           ++ exact I.
           ++ now inversion Hnf.
      * (* inside a fenced block *)
        simpl pending in *. rewrite app_nil_r in *. simpl app at 1.
        specialize (IH (pre0 ++ [l]) Fenced (S i)).
        simpl pending in IH. rewrite app_nil_r in IH.
        replace (pre0 ++ l :: rest) with ((pre0 ++ [l]) ++ rest)
          by (rewrite <- app_assoc; reflexivity).
        rewrite IH.
        -- rewrite <- app_assoc. reflexivity.
        -- subst i. rewrite length_app. simpl. lia.
        -- exact I.
        -- now inversion Hnf.
      * (* a block is open *)
        simpl pending in *. simpl in Hat. subst start.
        destruct (is_indented l || is_blank l) eqn:Eq.
        -- simpl app at 1.
           specialize (IH pre0 (Block (List.length pre0) (buf ++ [l])) (S i)).
           simpl pending in IH.
           replace ((pre0 ++ buf) ++ l :: rest)
             with ((pre0 ++ buf ++ [l]) ++ rest)
             by (rewrite <- !app_assoc; reflexivity).
           apply IH.
           ++ subst i. rewrite !length_app. simpl. lia.
           ++ reflexivity.
           ++ rewrite <- app_assoc. exact Hnf.
        -- rewrite apply_blocks_app.
           specialize (IH (pre0 ++ buf ++ [l]) Prose (S i)).
           simpl pending in IH. rewrite app_nil_r in IH.
           replace ((pre0 ++ buf) ++ l :: rest)
             with ((pre0 ++ buf ++ [l]) ++ rest)
             by (rewrite <- !app_assoc; reflexivity).
           rewrite IH.
           ++ rewrite <- !app_assoc.
              rewrite replace_block_emit
                by (now apply Forall_app in Hnf as [Hnf _]).
              reflexivity.
           ++ subst i. rewrite !length_app. simpl. lia.
           ++ exact I.
           ++ apply Forall_app in Hnf as [_ Hnf]. now inversion Hnf.
Qed.

(** The converter, written with the single pass. *)
Lemma convert_rebuild (content : string) :
  convert_to_fenced_blocks content
  = join_nl (firstn (body_start content) (split_nl content)
             ++ rebuild (body_start content) Prose
                  (skipn (body_start content) (split_nl content))).
Proof.
  pose proof (apply_blocks_rebuild
                (skipn (body_start content) (split_nl content))
                (firstn (body_start content) (split_nl content))
                Prose (body_start content)) as H.
  simpl pending in H. rewrite !app_nil_r in H. simpl app in H.
  rewrite firstn_skipn, <- detect_scan in H.
  rewrite <- H.
  - unfold convert_to_fenced_blocks.
    destruct (detect_indented_code_blocks content) as [|b bs] eqn:E.
    + simpl. now rewrite join_split.
    + now rewrite fold_left_rev_replace.
  - rewrite length_firstn. pose proof (body_start_le content). lia.
  - exact I.
  - apply newline_free_skipn, split_nl_newline_free.
Qed.

End RewriteFacts.

(** ** Facts on a second pass *)

Section SecondPass.

Lemma next_mode_shape (i j : nat) (m m' : mode) (l : string) :
  same_shape m m' -> same_shape (next_mode i m l) (next_mode j m' l).
Proof.
  unfold next_mode. destruct m, m'; simpl; try contradiction; intros H;
    destruct (is_fence l); simpl; try exact I.
  - destruct (is_indented l); simpl; auto.
  - subst. destruct (is_indented l || is_blank l); simpl; auto.
Qed.

Lemma written_shape (m m' : mode) (l : string) :
  same_shape m m' -> written m l = written m' l.
Proof.
  unfold written. destruct m, m'; simpl; try contradiction; intros H;
    try reflexivity.
  now subst.
Qed.

(** The line numbers do not matter for what is written. *)
Lemma rebuild_shape (lines : list string) :
  forall (i j : nat) (m m' : mode),
    same_shape m m' -> rebuild i m lines = rebuild j m' lines.
Proof.
  induction lines as [|l rest IH]; intros i j m m' H.
  - destruct m, m'; simpl in *; try contradiction; try reflexivity.
    now subst.
  - simpl. rewrite (written_shape m m' l H). f_equal.
    apply IH. now apply next_mode_shape.
Qed.

Lemma rebuild_prose_index (i : nat) (lines : list string) :
  rebuild i Prose lines = rebuild 0 Prose lines.
Proof. now apply rebuild_shape. Qed.

Lemma rebuild_fenced_index (i : nat) (lines : list string) :
  rebuild i Fenced lines = rebuild 0 Fenced lines.
Proof. now apply rebuild_shape. Qed.

Lemma trim_all_blank (buf : list string) :
  Forall (fun l => is_blank l = true) buf -> trim_trailing_blank buf = [].
Proof.
  induction 1 as [|l r Hl Hr IH]; [reflexivity|].
  simpl. now rewrite IH, Hl.
Qed.

Lemma trim_nil_all_blank (buf : list string) :
  trim_trailing_blank buf = [] -> Forall (fun l => is_blank l = true) buf.
Proof.
  induction buf as [|l r IH]; intros H; [constructor|].
  simpl in H. destruct (trim_trailing_blank r); [|discriminate].
  destruct (is_blank l) eqn:E; [|discriminate].
  constructor; auto.
Qed.

Lemma trim_trailing_all_blank (buf : list string) :
  Forall (fun l => is_blank l = true)
    (skipn (List.length (trim_trailing_blank buf)) buf).
Proof.
  induction buf as [|l r IH]; [constructor|].
  simpl. destruct (trim_trailing_blank r) as [|x r'] eqn:E.
  - destruct (is_blank l) eqn:El; simpl.
    + constructor; [assumption|]. now apply trim_nil_all_blank.
    + now apply trim_nil_all_blank.
  - simpl in *. exact IH.
Qed.

Lemma trim_Forall (P : string -> Prop) (buf : list string) :
  Forall P buf -> Forall P (trim_trailing_blank buf).
Proof.
  intros H. rewrite (trim_split buf) in H. now apply Forall_app in H.
Qed.

(** Through a fenced block. *)
Lemma rebuild_through_fenced (ys rest : list string) (i : nat) :
  Forall (fun l => is_fence l = false) ys ->
  rebuild i Fenced (ys ++ fence :: rest)
  = ys ++ fence :: rebuild 0 Prose rest.
Proof.
  revert i. induction ys as [|y ys IH]; intros i H.
  - simpl. unfold written, next_mode. rewrite is_fence_fence. simpl.
    now rewrite rebuild_prose_index.
  - inversion H as [|? ? Hy Hys]; subst.
    simpl. unfold written, next_mode. rewrite Hy. simpl.
    now rewrite IH.
Qed.

Lemma is_blank_not_fence (l : string) :
  is_blank l = true -> is_fence l = false.
Proof.
  intros H. destruct (is_fence l) eqn:E; [|reflexivity].
  apply is_fence_not_blank in E. congruence.
Qed.

Lemma emit_lines_all_blank (b : list string) :
  Forall (fun l => is_blank l = true) b -> emit_lines b = b.
Proof. intros H. unfold emit_lines. now rewrite trim_all_blank. Qed.

Lemma rebuild_blank_run_eof (bs : list string) :
  forall (i : nat) (m : mode),
    quiet m -> Forall (fun l => is_blank l = true) bs ->
    rebuild i m bs = pending m ++ bs.
Proof.
  induction bs as [|l bs IH]; intros i m Hq Hb.
  - destruct m; simpl in *; try contradiction; [reflexivity|].
    rewrite app_nil_r. now apply emit_lines_all_blank.
  - inversion Hb as [|? ? Hl Hbs]; subst.
    simpl. unfold written, next_mode.
    rewrite (is_blank_not_fence l Hl).
    destruct m as [| |s b]; simpl in *; try contradiction.
    + destruct (is_indented l).
      * rewrite IH; simpl; auto.
      * rewrite IH; simpl; auto.
    + rewrite Hl, orb_true_r. simpl.
      rewrite IH; simpl.
      * now rewrite <- app_assoc.
      * apply Forall_app. split; auto.
      * assumption.
Qed.

Lemma rebuild_blank_run_prose (bs : list string) (l : string)
  (rest : list string) :
  is_fence l = false -> is_indented l || is_blank l = false ->
  forall (i : nat) (m : mode),
    quiet m -> Forall (fun l => is_blank l = true) bs ->
    rebuild i m (bs ++ l :: rest)
    = pending m ++ bs ++ l :: rebuild 0 Prose rest.
Proof.
  intros Hf Hq.
  apply orb_false_elim in Hq as Hq'. destruct Hq' as [Hi Hb].
  induction bs as [|x bs IH]; intros i m Hm Hbs.
  - simpl. unfold written, next_mode. rewrite Hf.
    destruct m as [| |s b]; simpl in *; try contradiction.
    + rewrite Hi. simpl. now rewrite rebuild_prose_index.
    + rewrite Hq. rewrite emit_lines_all_blank by assumption.
      rewrite <- app_assoc. simpl. now rewrite rebuild_prose_index.
  - inversion Hbs as [|? ? Hx Hxs]; subst.
    simpl. unfold written, next_mode.
    rewrite (is_blank_not_fence x Hx).
    destruct m as [| |s b]; simpl in *; try contradiction.
    + destruct (is_indented x).
      * rewrite IH; simpl; auto.
      * rewrite IH; simpl; auto.
    + rewrite Hx, orb_true_r. simpl.
      rewrite IH; simpl.
      * now rewrite <- app_assoc.
      * apply Forall_app. split; auto.
      * assumption.
Qed.

(** A block that a fence line drops is dropped again. *)
Lemma rebuild_dropped_block (buf : list string) (f : string)
  (rest : list string) :
  is_fence f = true ->
  forall (i : nat) (m : mode),
    m <> Fenced -> Forall block_line buf ->
    rebuild i m (buf ++ f :: rest)
    = pending m ++ buf ++ f :: rebuild 0 Fenced rest.
Proof.
  intros Hf.
  induction buf as [|x buf IH]; intros i m Hm Hbuf.
  - simpl. unfold written, next_mode. rewrite Hf.
    destruct m; try congruence; simpl;
      rewrite <- ?app_assoc; simpl; now rewrite rebuild_fenced_index.
  - inversion Hbuf as [|? ? [Hxf Hxq] Hrest]; subst.
    simpl. unfold written, next_mode. rewrite Hxf.
    destruct m as [| |s b]; try congruence; simpl.
    + destruct (is_indented x).
      * rewrite IH by (auto; discriminate). reflexivity.
      * rewrite IH by (auto; discriminate). reflexivity.
    + rewrite Hxq. simpl.
      rewrite IH by (auto; discriminate). simpl.
      now rewrite <- app_assoc.
Qed.

Lemma block_line_not_fence (buf : list string) :
  Forall block_line buf -> Forall (fun l => is_fence l = false) buf.
Proof. apply Forall_impl. intros l [H _]. exact H. Qed.

Lemma unindent_not_fence (core : list string) :
  Forall (fun l => is_fence l = false) core ->
  Forall (fun l => is_fence l = false) (map unindent_line core).
Proof.
  intros H. apply Forall_map. eapply Forall_impl; [|exact H].
  intros l Hl. simpl. now rewrite is_fence_unindent_line.
Qed.

Lemma rebuild_prose_fence (i : nat) (rest : list string) :
  rebuild i Prose (fence :: rest) = fence :: rebuild (S i) Fenced rest.
Proof. reflexivity. Qed.

(** The lines written for a finished block pass unchanged: at the end of
    the document, *)
Lemma rebuild_emit_lines_eof (buf : list string) (i : nat) :
  Forall block_line buf ->
  rebuild i Prose (emit_lines buf) = emit_lines buf.
Proof.
  intros Hbuf. unfold emit_lines.
  pose proof (trim_trailing_all_blank buf) as Htrail.
  pose proof (trim_Forall _ buf (block_line_not_fence buf Hbuf)) as Hcore.
  destruct (trim_trailing_blank buf) as [|c core] eqn:E.
  - rewrite rebuild_blank_run_eof; simpl; auto.
  - remember (c :: core) as cr eqn:Ecr.
    rewrite rebuild_prose_fence.
    rewrite rebuild_through_fenced by now apply unindent_not_fence.
    rewrite rebuild_blank_run_eof; simpl; auto.
Qed.

(** and before a line of prose. *)
Lemma rebuild_emit_lines_prose (buf : list string) (l : string)
  (rest : list string) (i : nat) :
  Forall block_line buf ->
  is_fence l = false -> is_indented l || is_blank l = false ->
  rebuild i Prose (emit_lines buf ++ l :: rest)
  = emit_lines buf ++ l :: rebuild 0 Prose rest.
Proof.
  intros Hbuf Hf Hq. unfold emit_lines.
  pose proof (trim_trailing_all_blank buf) as Htrail.
  pose proof (trim_Forall _ buf (block_line_not_fence buf Hbuf)) as Hcore.
  destruct (trim_trailing_blank buf) as [|c core] eqn:E.
  - rewrite rebuild_blank_run_prose; simpl; auto.
  - remember (c :: core) as cr eqn:Ecr.
    cbn [app]. rewrite <- app_assoc. cbn [app].
    rewrite rebuild_prose_fence.
    rewrite rebuild_through_fenced by now apply unindent_not_fence.
    rewrite rebuild_blank_run_prose; simpl; auto.
    now rewrite <- app_assoc.
Qed.

(** The single pass is idempotent, from every mode. *)
Lemma rebuild_rebuild (lines : list string) :
  forall (i j : nat) (m : mode),
    good_mode m ->
    rebuild j (restart m) (rebuild i m lines) = rebuild i m lines.
Proof.
  induction lines as [|l rest IH]; intros i j m Hm.
  - destruct m as [| |s buf]; simpl; try reflexivity.
    now apply rebuild_emit_lines_eof.
  - simpl rebuild at 2 3. unfold written, next_mode.
    destruct (is_fence l) eqn:Ef.
    + destruct m as [| |s buf]; simpl pending; simpl restart.
      * simpl. unfold written, next_mode. rewrite Ef. simpl.
        f_equal. apply (IH (S i) (S j) Fenced I).
      * simpl. unfold written, next_mode. rewrite Ef. simpl.
        f_equal. apply (IH (S i) (S j) Prose I).
      * rewrite <- app_assoc. simpl app.
        rewrite rebuild_dropped_block by (auto; discriminate).
        simpl. do 2 f_equal.
        apply (IH (S i) 0 Fenced I).
    + destruct m as [| |s buf]; simpl restart.
      * destruct (is_indented l) eqn:Ei.
        -- simpl app. apply (IH (S i) j (Block i [l])).
           simpl. repeat constructor; [assumption|]. now rewrite Ei.
        -- simpl. unfold written, next_mode. rewrite Ef, Ei. simpl.
           f_equal. apply (IH (S i) (S j) Prose I).
      * simpl. unfold written, next_mode. rewrite Ef. simpl.
        f_equal. apply (IH (S i) (S j) Fenced I).
      * destruct (is_indented l || is_blank l) eqn:Eq.
        -- simpl app. apply (IH (S i) j (Block s (buf ++ [l]))).
           simpl. apply Forall_app. split; [exact Hm|].
           repeat constructor; assumption.
        -- rewrite <- app_assoc. simpl app.
           rewrite rebuild_emit_lines_prose by assumption.
           do 2 f_equal.
           apply (IH (S i) 0 Prose I).
Qed.

End SecondPass.

(** ** Facts on what the single pass keeps *)

Section Preservation.

Lemma detect_frontmatter_lines (content : string) :
  detect_frontmatter_boundaries content
  = frontmatter_of_lines (split_nl content).
Proof. reflexivity. Qed.

Lemma emit_length (start : nat) (buf : list string) :
  List.length (emit_lines buf)
  = List.length buf + 2 * List.length (emit start buf).
Proof.
  unfold emit_lines, emit, finish_block.
  pose proof (trim_split buf) as Hs.
  destruct (trim_trailing_blank buf) as [|c core] eqn:E; [simpl; lia|].
  remember (c :: core) as cr.
  apply (f_equal (@List.length string)) in Hs.
  rewrite length_app in Hs.
  cbn [app List.length]. rewrite length_app, length_map.
  cbn [List.length]. lia.
Qed.

(** Every detected block adds two lines. *)
Lemma rebuild_length (lines : list string) :
  forall (i : nat) (m : mode),
    List.length (rebuild i m lines)
    = List.length (pending m) + List.length lines
      + 2 * List.length (scan i m lines).
Proof.
  induction lines as [|l rest IH]; intros i m.
  - destruct m as [| |s buf]; simpl; try reflexivity.
    rewrite (emit_length s). lia.
  - simpl rebuild. simpl scan. rewrite !length_app, IH.
    unfold written, emitted, next_mode.
    destruct (is_fence l).
    + destruct m; simpl; rewrite ?length_app; simpl; lia.
    + destruct m as [| |s buf]; simpl.
      * destruct (is_indented l); simpl; lia.
      * lia.
      * destruct (is_indented l || is_blank l); simpl.
        -- rewrite length_app. simpl. lia.
        -- rewrite length_app, (emit_length s). simpl. lia.
Qed.

Lemma emit_lines_newline_free (buf : list string) :
  newline_free buf -> newline_free (emit_lines buf).
Proof.
  intros H. unfold emit_lines.
  pose proof (trim_newline_free buf H) as Hc.
  destruct (trim_trailing_blank buf) as [|c core] eqn:E; [assumption|].
  remember (c :: core) as cr.
  constructor; [reflexivity|].
  apply Forall_app. split.
  - now apply newline_free_map_unindent.
  - constructor; [reflexivity|]. now apply newline_free_skipn.
Qed.

Lemma rebuild_newline_free (lines : list string) :
  forall (i : nat) (m : mode),
    newline_free (pending m ++ lines) -> newline_free (rebuild i m lines).
Proof.
  induction lines as [|l rest IH]; intros i m H.
  - rewrite app_nil_r in H. destruct m; simpl in *; try constructor.
    now apply emit_lines_newline_free.
  - apply Forall_app in H as [Hp Hl].
    inversion Hl as [|? ? Hl0 Hrest]; subst.
    simpl. apply Forall_app. split.
    + unfold written. destruct (is_fence l).
      * apply Forall_app. split; [assumption | now constructor].
      * destruct m as [| |s buf]; simpl in *.
        -- destruct (is_indented l); now repeat constructor.
        -- now repeat constructor.
        -- destruct (is_indented l || is_blank l); [constructor|].
           apply Forall_app. split;
             [now apply emit_lines_newline_free | now repeat constructor].
    + apply IH. unfold next_mode. destruct (is_fence l).
      * destruct m; simpl; assumption.
      * destruct m as [| |s buf]; simpl in *.
        -- destruct (is_indented l); simpl; [now constructor | assumption].
        -- assumption.
        -- destruct (is_indented l || is_blank l); simpl; [|assumption].
           rewrite <- app_assoc. apply Forall_app. split; [assumption|].
           now constructor.
Qed.

Lemma count_stripped_app (d : string) (a b : list string) :
  count_stripped d (a ++ b) = count_stripped d a + count_stripped d b.
Proof. unfold count_stripped. now rewrite filter_app, length_app. Qed.

Lemma count_stripped_cons (d : string) (l : string) (ls : list string) :
  count_stripped d (l :: ls)
  = (if String.eqb (strip l) d then 1 else 0) + count_stripped d ls.
Proof.
  unfold count_stripped. simpl. now destruct (String.eqb (strip l) d).
Qed.

Lemma count_stripped_nil (d : string) : count_stripped d [] = 0.
Proof. reflexivity. Qed.

Ltac count_simpl :=
  cbn [pending app];
  rewrite ?count_stripped_app, ?count_stripped_cons, ?count_stripped_nil;
  try lia.

Lemma count_stripped_map_unindent (d : string) (ls : list string) :
  count_stripped d (map unindent_line ls) = count_stripped d ls.
Proof.
  induction ls as [|l ls IH]; [reflexivity|].
  simpl map. rewrite !count_stripped_cons, strip_unindent_line, IH.
  reflexivity.
Qed.

Section Delimiter.

Variable d : string.
Hypothesis d_not_fence : String.eqb (strip fence) d = false.

Lemma count_stripped_emit_lines (buf : list string) :
  count_stripped d (emit_lines buf) = count_stripped d buf.
Proof.
  unfold emit_lines. pose proof (trim_split buf) as Hs.
  destruct (trim_trailing_blank buf) as [|c core] eqn:E; [reflexivity|].
  remember (c :: core) as cr.
  rewrite Hs at 2.
  rewrite count_stripped_cons, !count_stripped_app, count_stripped_cons.
  rewrite d_not_fence, count_stripped_map_unindent. simpl. reflexivity.
Qed.

(** The single pass keeps the number of lines that strip to [d]. *)
Lemma count_stripped_rebuild (lines : list string) :
  forall (i : nat) (m : mode),
    count_stripped d (rebuild i m lines)
    = count_stripped d (pending m ++ lines).
Proof.
  induction lines as [|l rest IH]; intros i m.
  - rewrite app_nil_r. destruct m; simpl; try reflexivity.
    apply count_stripped_emit_lines.
  - simpl rebuild. rewrite count_stripped_app, IH.
    unfold written, next_mode.
    destruct (is_fence l).
    + destruct m; count_simpl.
    + destruct m as [| |s buf].
      * destruct (is_indented l); count_simpl.
      * count_simpl.
      * destruct (is_indented l || is_blank l); count_simpl.
        rewrite count_stripped_emit_lines. lia.
Qed.

Lemma find_closing_none_count (ls : list string) :
  forall i, find_closing d i ls = None <-> count_stripped d ls = 0.
Proof.
  induction ls as [|l ls IH]; intros i; simpl.
  - split; reflexivity.
  - rewrite count_stripped_cons.
    destruct (String.eqb (strip l) d).
    + split; [discriminate | simpl; lia].
    + simpl. apply IH.
Qed.

End Delimiter.

(** An open block is written starting with its first line or a fence. *)
Lemma rebuild_block_head (lines : list string) :
  forall (i s : nat) (b0 : string) (buf : list string),
    exists t, rebuild i (Block s (b0 :: buf)) lines = fence :: t
              \/ rebuild i (Block s (b0 :: buf)) lines = b0 :: t.
Proof.
  assert (Hemit : forall b0 buf X,
             exists t, emit_lines (b0 :: buf) ++ X = fence :: t
                       \/ emit_lines (b0 :: buf) ++ X = b0 :: t).
  { intros b0 buf X. unfold emit_lines.
    destruct (trim_trailing_blank (b0 :: buf)); simpl; eauto. }
  induction lines as [|l rest IH]; intros i s b0 buf.
  - simpl. destruct (Hemit b0 buf []) as [t Ht].
    rewrite app_nil_r in Ht. eauto.
  - simpl. unfold written, next_mode.
    destruct (is_fence l).
    + simpl. eauto.
    + destruct (is_indented l || is_blank l).
      * simpl. apply (IH (S i) s b0 (buf ++ [l])).
      * rewrite <- app_assoc. apply Hemit.
Qed.

Lemma find_closing_app_some (d : string) (a b : list string) :
  forall i e, find_closing d i a = Some e ->
              find_closing d i (a ++ b) = Some e.
Proof.
  induction a as [|l a IH]; intros i e H; simpl in *; [discriminate|].
  destruct (String.eqb (strip l) d); [assumption | now apply IH].
Qed.

Lemma find_closing_firstn (d : string) (ls : list string) :
  forall i e, find_closing d i ls = Some e ->
              find_closing d i (firstn (S e - i) ls) = Some e.
Proof.
  induction ls as [|l ls IH]; intros i e H; [discriminate|].
  simpl in H.
  destruct (String.eqb (strip l) d) eqn:E.
  - inversion H; subst. replace (S e - e) with 1 by lia.
    cbn [firstn find_closing]. now rewrite E.
  - pose proof (find_closing_bounds _ _ _ _ H) as Hb.
    replace (S e - i) with (S (e - i)) by lia.
    cbn [firstn find_closing]. rewrite E.
    replace (e - i) with (S e - S i) by lia.
    now apply IH.
Qed.

(** The output of the converter has the frontmatter of its input. *)
Lemma frontmatter_stable (content : string) :
  let lines := split_nl content in
  let k := body_start content in
  frontmatter_of_lines (firstn k lines ++ rebuild k Prose (skipn k lines))
  = frontmatter_of_lines lines.
Proof.
  cbv zeta. unfold body_start. rewrite detect_frontmatter_lines.
  destruct (frontmatter_of_lines (split_nl content)) as [[fs fe]|] eqn:E.
  - (* a frontmatter: its lines are copied *)
    rewrite <- E. unfold frontmatter_of_lines in *.
    destruct (split_nl content) as [|l0 rest]; [discriminate|].
    cbn [firstn app].
    destruct (String.eqb (strip l0) "+++").
    + destruct (find_closing "+++" 1 rest) as [e|] eqn:Ec; [|discriminate].
      inversion E; subst.
      apply find_closing_firstn in Ec.
      replace (S fe - 1) with fe in Ec by lia.
      now rewrite (find_closing_app_some _ _ _ _ _ Ec).
    + destruct (String.eqb (strip l0) "---"); [|discriminate].
      destruct (find_closing "---" 1 rest) as [e|] eqn:Ec; [|discriminate].
      inversion E; subst.
      apply find_closing_firstn in Ec.
      replace (S fe - 1) with fe in Ec by lia.
      now rewrite (find_closing_app_some _ _ _ _ _ Ec).
  - (* no frontmatter: none appears *)
    cbn [firstn skipn app].
    destruct (split_nl content) as [|l0 rest] eqn:El.
    { reflexivity. }
    assert (Hhead : exists t,
               rebuild 0 Prose (l0 :: rest) = fence :: t
               \/ (rebuild 0 Prose (l0 :: rest) = l0 :: t
                   /\ forall d, String.eqb (strip fence) d = false ->
                                count_stripped d t = count_stripped d rest)).
    { assert (Hcount : forall d t,
                 String.eqb (strip fence) d = false ->
                 rebuild 0 Prose (l0 :: rest) = l0 :: t ->
                 count_stripped d t = count_stripped d rest).
      { intros d t Hd Ht.
        pose proof (count_stripped_rebuild d Hd (l0 :: rest) 0 Prose) as Hc.
        rewrite Ht in Hc. simpl pending in Hc. simpl app in Hc.
        rewrite !count_stripped_cons in Hc. lia. }
      revert Hcount. simpl rebuild. unfold written, next_mode.
      destruct (is_fence l0); [simpl; eauto|].
      destruct (is_indented l0); [|simpl; eauto].
      simpl app. intros Hcount.
      destruct (rebuild_block_head rest 1 0 l0 []) as [t [Ht|Ht]];
        exists t; [now left | right; split; [assumption|]].
      intros d Hd. now apply Hcount. }
    destruct Hhead as [t [Ht|[Ht Hcount]]]; rewrite Ht.
    + reflexivity.
    + unfold frontmatter_of_lines in *.
      destruct (String.eqb (strip l0) "+++").
      * destruct (find_closing "+++" 1 rest) eqn:Ec; [discriminate|].
        apply find_closing_none_count in Ec.
        rewrite <- (Hcount "+++") in Ec by reflexivity.
        apply (find_closing_none_count "+++" t 1) in Ec. now rewrite Ec.
      * destruct (String.eqb (strip l0) "---"); [|reflexivity].
        destruct (find_closing "---" 1 rest) eqn:Ec; [discriminate|].
        apply find_closing_none_count in Ec.
        rewrite <- (Hcount "---") in Ec by reflexivity.
        apply (find_closing_none_count "---" t 1) in Ec. now rewrite Ec.
Qed.

End Preservation.

(** ** Facts on the converted lines *)

Section ConvertedLines.

Lemma converted_lines_length (content : string) :
  List.length (converted_lines content)
  = List.length (split_nl content)
    + 2 * List.length (detect_indented_code_blocks content).
Proof.
  unfold converted_lines.
  rewrite length_app, rebuild_length, <- detect_scan.
  rewrite length_firstn, length_skipn. simpl pending. simpl List.length.
  pose proof (body_start_le content). lia.
Qed.

Lemma converted_lines_newline_free (content : string) :
  newline_free (converted_lines content).
Proof.
  unfold converted_lines. apply Forall_app. split.
  - apply newline_free_firstn, split_nl_newline_free.
  - apply rebuild_newline_free. simpl.
    apply newline_free_skipn, split_nl_newline_free.
Qed.

Lemma split_convert (content : string) :
  split_nl (convert_to_fenced_blocks content) = converted_lines content.
Proof.
  rewrite convert_rebuild. apply split_join.
  - pose proof (converted_lines_length content) as H.
    pose proof (split_nl_length_pos content) as Hp.
    fold (converted_lines content).
    destruct (converted_lines content); [simpl in H; lia | discriminate].
  - apply converted_lines_newline_free.
Qed.

Lemma body_start_convert (content : string) :
  body_start (convert_to_fenced_blocks content) = body_start content.
Proof.
  pose proof (frontmatter_stable content) as H. cbv zeta in H.
  fold (converted_lines content) in H.
  unfold body_start at 1. rewrite detect_frontmatter_lines, split_convert, H.
  reflexivity.
Qed.

End ConvertedLines.

(** ** Facts on the detected blocks *)

Section SpanFacts.

Lemma spans_from_le (blocks : list span) (lo lo' : nat) :
  lo <= lo' -> spans_from lo' blocks -> spans_from lo blocks.
Proof. destruct blocks; simpl; [auto|]. intros H [H1 H2]. split; [lia|auto]. Qed.

Lemma spans_from_app (a b : list span) (lo : nat) :
  spans_from lo a ->
  (forall x, In x a -> spans_from (S (span_end x)) b) ->
  spans_from lo b ->
  spans_from lo (a ++ b).
Proof.
  revert lo. induction a as [|x a IH]; intros lo Ha Hab Hb; [assumption|].
  simpl in *. destruct Ha as [H1 H2]. split; [assumption|].
  apply IH; auto.
Qed.

Lemma trim_last_not_blank (buf : list string) :
  trim_trailing_blank buf <> [] ->
  is_blank (last (trim_trailing_blank buf) EmptyString) = false.
Proof.
  induction buf as [|l r IH]; intros H; [now elim H|].
  simpl in *. destruct (trim_trailing_blank r) as [|x r'] eqn:E.
  - destruct (is_blank l) eqn:El; [now elim H | exact El].
  - apply IH. discriminate.
Qed.

Lemma emit_ok (pre0 buf post : list string) :
  open_ok (Block (List.length pre0) buf) ->
  Forall (span_ok (pre0 ++ buf ++ post)) (emit (List.length pre0) buf)
  /\ (forall b, In b (emit (List.length pre0) buf) ->
                span_start b = List.length pre0
                /\ span_end b < List.length pre0 + List.length buf).
Proof.
  intros [[b0 [bs [Hbuf Hind]]] Hall].
  unfold emit, finish_block.
  pose proof (trim_split buf) as Hs.
  pose proof (trim_length_le buf) as Hle.
  pose proof (trim_last_not_blank buf) as Hlast.
  pose proof (trim_Forall _ buf Hall) as Hcore.
  destruct (trim_trailing_blank buf) as [|c cs] eqn:E.
  - split; [constructor | intros b []].
  - assert (c = b0) as ->.
    { rewrite Hbuf in Hs. simpl in Hs. now inversion Hs. }
    cbn [app]. split.
    + constructor; [|constructor].
      exists pre0, (b0 :: cs), (skipn (List.length (b0 :: cs)) buf ++ post),
        b0, cs.
      unfold span_start, span_end, span_content. cbn [fst snd].
      repeat split; try assumption.
      * f_equal. rewrite (app_assoc (b0 :: cs)). rewrite <- Hs. reflexivity.
      * simpl. lia.
      * apply Hlast. discriminate.
    + intros b [<-|[]]. unfold span_start, span_end. cbn [fst snd].
      simpl in *. lia.
Qed.

Lemma open_ok_start (i : nat) (l : string) :
  is_fence l = false -> is_indented l = true -> open_ok (Block i [l]).
Proof.
  intros Hf Hi. split; [eauto|].
  repeat constructor; [assumption | now rewrite Hi].
Qed.

Lemma open_ok_extend (s : nat) (buf : list string) (l : string) :
  open_ok (Block s buf) -> is_fence l = false ->
  is_indented l || is_blank l = true ->
  open_ok (Block s (buf ++ [l])).
Proof.
  intros [[b0 [bs [-> Hind]]] Hall] Hf Hq. split.
  - exists b0, (bs ++ [l]). auto.
  - apply Forall_app. split; [assumption|]. repeat constructor; assumption.
Qed.

(** Every block of a scan is well formed, and the blocks are in order. *)
Lemma scan_spans_ok (lines : list string) :
  forall (pre0 : list string) (m : mode) (i : nat),
    i = List.length (pre0 ++ pending m) ->
    block_at m (List.length pre0) ->
    open_ok m ->
    Forall (span_ok ((pre0 ++ pending m) ++ lines)) (scan i m lines)
    /\ spans_from (low m i) (scan i m lines).
Proof.
  induction lines as [|l rest IH]; intros pre0 m i Hi Hat Hok.
  - destruct m as [| |s buf]; simpl; try (split; [constructor | exact I]).
    simpl in Hat. subst s.
    destruct (emit_ok pre0 buf [] Hok) as [H1 H2].
    rewrite <- app_assoc. split; [exact H1|].
    destruct (emit (List.length pre0) buf) as [|b [|b' bl]] eqn:E;
      simpl; auto.
    + split; [|exact I]. destruct (H2 b) as [-> _]; [now left | lia].
    + unfold emit, finish_block in E.
      destruct (trim_trailing_blank buf); discriminate.
  - simpl scan. unfold emitted, next_mode.
    destruct (is_fence l) eqn:Ef.
    + (* a fence line *)
      cbn [app].
      assert (Hnext : pending (match m with Fenced => Prose | _ => Fenced end)
                      = []) by (destruct m; reflexivity).
      specialize (IH (pre0 ++ pending m ++ [l])
                    (match m with Fenced => Prose | _ => Fenced end) (S i)).
      rewrite Hnext, app_nil_r in IH.
      replace ((pre0 ++ pending m) ++ l :: rest)
        with ((pre0 ++ pending m ++ [l]) ++ rest)
        by (rewrite <- !app_assoc; reflexivity).
      destruct IH as [IH1 IH2].
      * subst i. rewrite !length_app. simpl. lia.
      * destruct m; exact I.
      * destruct m; exact I.
      * split; [exact IH1|].
        eapply spans_from_le; [|exact IH2].
        destruct m as [| |s buf]; simpl in *; try lia.
        subst. rewrite length_app. lia.
    + destruct m as [| |s buf].
      * (* prose *)
        simpl pending in *. rewrite app_nil_r in *.
        replace (pre0 ++ l :: rest) with ((pre0 ++ [l]) ++ rest)
          by (rewrite <- app_assoc; reflexivity).
        destruct (is_indented l) eqn:Ei; cbn [app].
        -- specialize (IH pre0 (Block i [l]) (S i)).
           simpl pending in IH. destruct IH as [IH1 IH2].
           ++ subst i. rewrite length_app. simpl. lia.
           ++ simpl. assumption.
           ++ now apply open_ok_start.
           ++ split; assumption.
        -- specialize (IH (pre0 ++ [l]) Prose (S i)).
           simpl pending in IH. rewrite app_nil_r in IH.
           destruct IH as [IH1 IH2].
           ++ subst i. rewrite length_app. simpl. lia.
           ++ exact I.
           ++ exact I.
           ++ split; [assumption|].
              eapply spans_from_le; [|exact IH2]. simpl. lia.
      * (* inside a fenced block *)
        simpl pending in *. rewrite app_nil_r in *. cbn [app].
        replace (pre0 ++ l :: rest) with ((pre0 ++ [l]) ++ rest)
          by (rewrite <- app_assoc; reflexivity).
        specialize (IH (pre0 ++ [l]) Fenced (S i)).
        simpl pending in IH. rewrite app_nil_r in IH.
        destruct IH as [IH1 IH2].
        -- subst i. rewrite length_app. simpl. lia.
        -- exact I.
        -- exact I.
        -- split; [assumption|].
           eapply spans_from_le; [|exact IH2]. simpl. lia.
      * (* a block is open *)
        simpl pending in *. simpl in Hat. subst s.
        replace ((pre0 ++ buf) ++ l :: rest)
          with ((pre0 ++ buf ++ [l]) ++ rest)
          by (rewrite <- !app_assoc; reflexivity).
        destruct (is_indented l || is_blank l) eqn:Eq; cbn [app].
        -- specialize (IH pre0 (Block (List.length pre0) (buf ++ [l])) (S i)).
           simpl pending in IH. destruct IH as [IH1 IH2].
           ++ subst i. rewrite !length_app. simpl. lia.
           ++ reflexivity.
           ++ now apply open_ok_extend.
           ++ split; assumption.
        -- specialize (IH (pre0 ++ buf ++ [l]) Prose (S i)).
           simpl pending in IH. rewrite app_nil_r in IH.
           destruct IH as [IH1 IH2].
           ++ subst i. rewrite !length_app. simpl. lia.
           ++ exact I.
           ++ exact I.
           ++ destruct (emit_ok pre0 buf ([l] ++ rest) Hok) as [H1 H2].
              split.
              ** apply Forall_app. split; [|assumption].
                 rewrite <- !app_assoc. exact H1.
              ** simpl low in *.
                 assert (Hi' : i = List.length pre0 + List.length buf)
                   by (subst i; now rewrite length_app).
                 apply spans_from_app.
                 --- destruct (emit (List.length pre0) buf)
                       as [|b [|b' bl]] eqn:E; simpl; auto.
                     +++ split; [|exact I].
                         destruct (H2 b) as [-> _]; [now left | lia].
                     +++ unfold emit, finish_block in E.
                         destruct (trim_trailing_blank buf); discriminate.
                 --- intros x Hx. destruct (H2 x Hx) as [_ Hend].
                     eapply spans_from_le; [|exact IH2]. lia.
                 --- eapply spans_from_le; [|exact IH2]. lia.
Qed.

End SpanFacts.

(** ** Facts on the positions of the lines *)

Section Positions.

Variable lines : list string.
Hypothesis lines_nf : newline_free lines.

Lemma span_ok_bounds (b : span) :
  span_ok lines b ->
  span_start b <= span_end b /\ span_end b < List.length lines.
Proof.
  clear lines_nf.
  intros (pre & core & post & c & cs & -> & -> & Hs & He & _).
  rewrite !length_app. simpl. lia.
Qed.

Lemma span_ok_lines_of (b : span) :
  span_ok lines b ->
  span_content b = join_nl (lines_of lines b)
  /\ lines_of lines b <> []
  /\ List.length (lines_of lines b) = S (span_end b) - span_start b.
Proof.
  intros (pre & core & post & c & cs & Hl & Hc & Hs & He & Hcont & _).
  unfold lines_of. rewrite Hs, He, Hl.
  rewrite skipn_app, skipn_all, Nat.sub_diag. cbn [skipn app].
  assert (Hlen : List.length core = S (List.length cs))
    by (rewrite Hc; reflexivity).
  replace (S (List.length pre + List.length cs) - List.length pre)
    with (List.length core + 0) by lia.
  rewrite firstn_app_2. cbn [firstn]. rewrite app_nil_r.
  repeat split; [assumption | rewrite Hc; discriminate | lia].
Qed.

Lemma span_ok_fenced (b : span) :
  span_ok lines b ->
  fenced_block (span_content b)
  = fence :: map unindent_line (lines_of lines b) ++ [fence].
Proof.
  intros H. destruct (span_ok_lines_of b H) as (Hc & Hne & _).
  rewrite Hc. apply fenced_block_join; [assumption|].
  unfold lines_of. apply newline_free_firstn, newline_free_skipn, lines_nf.
Qed.

Lemma span_ok_fenced_length (b : span) :
  span_ok lines b ->
  List.length (fenced_block (span_content b))
  = span_end b - span_start b + 3.
Proof.
  intros H. rewrite (span_ok_fenced b H).
  destruct (span_ok_lines_of b H) as (_ & _ & Hlen).
  destruct (span_ok_bounds b H) as [Hle _].
  cbn [List.length]. rewrite length_app, length_map, Hlen.
  cbn [List.length]. lia.
Qed.

Lemma skipn_replace_after (X : list string) (b : span) (p : nat) :
  span_start b <= span_end b -> span_end b < List.length X ->
  List.length (fenced_block (span_content b))
  = span_end b - span_start b + 3 ->
  span_end b < p ->
  skipn (p + 2) (replace_block X b) = skipn p X.
Proof.
  intros Hse He Hlen Hp. unfold replace_block, slice_assign.
  rewrite Nat.max_r by lia.
  rewrite skipn_app, skipn_all2 by (rewrite length_firstn; lia).
  rewrite length_firstn, Nat.min_l by lia. cbn [app].
  rewrite skipn_app, skipn_all2 by lia. cbn [app].
  rewrite skipn_skipn. f_equal. lia.
Qed.

Lemma nth_replace_after (X : list string) (b : span) (p : nat) :
  span_start b <= span_end b -> span_end b < List.length X ->
  List.length (fenced_block (span_content b))
  = span_end b - span_start b + 3 ->
  span_end b < p ->
  nth_error (replace_block X b) (p + 2) = nth_error X p.
Proof.
  intros Hse He Hlen Hp.
  rewrite <- (Nat.add_0_r (p + 2)), <- nth_error_skipn.
  rewrite skipn_replace_after by assumption.
  rewrite nth_error_skipn. f_equal. lia.
Qed.

Lemma nth_replace_before (X : list string) (b : span) (p : nat) :
  span_start b <= List.length X -> p < span_start b ->
  nth_error (replace_block X b) p = nth_error X p.
Proof.
  intros Hs Hp. unfold replace_block, slice_assign.
  rewrite nth_error_app1 by (rewrite length_firstn; lia).
  rewrite nth_error_firstn.
  destruct (p <? span_start b) eqn:E; [reflexivity|].
  apply Nat.ltb_ge in E. lia.
Qed.

Lemma skipn_replace_at (X : list string) (b : span) :
  span_start b <= List.length X ->
  firstn (List.length (fenced_block (span_content b)))
    (skipn (span_start b) (replace_block X b))
  = fenced_block (span_content b).
Proof.
  intros Hs. unfold replace_block, slice_assign.
  rewrite skipn_app, skipn_all2 by (rewrite length_firstn; lia).
  rewrite length_firstn, Nat.min_l, Nat.sub_diag by lia. cbn [skipn app].
  rewrite firstn_app, Nat.sub_diag, firstn_all. cbn [firstn].
  now rewrite app_nil_r.
Qed.

Lemma replace_block_length (X : list string) (b : span) :
  span_start b <= span_end b -> span_end b < List.length X ->
  List.length (fenced_block (span_content b))
  = span_end b - span_start b + 3 ->
  List.length (replace_block X b) = List.length X + 2.
Proof.
  intros Hse He Hlen. unfold replace_block, slice_assign.
  rewrite !length_app, length_firstn, length_skipn, Hlen. lia.
Qed.

Lemma spans_from_start (blocks : list span) :
  forall lo, Forall (span_ok lines) blocks -> spans_from lo blocks ->
             forall b, In b blocks -> lo <= span_start b.
Proof.
  clear lines_nf.
  induction blocks as [|x blocks IH]; intros lo Hok Hfrom b Hb; [easy|].
  inversion Hok as [|? ? Hx Hrest]; subst.
  destruct Hfrom as [Hlo Hnext]. destruct Hb as [->|Hb]; [assumption|].
  pose proof (span_ok_bounds x Hx) as [Hse _].
  specialize (IH _ Hrest Hnext b Hb). lia.
Qed.

Lemma blocks_before_zero (blocks : list span) (lo j : nat) :
  Forall (span_ok lines) blocks -> spans_from lo blocks -> j <= lo ->
  blocks_before blocks j = 0.
Proof.
  clear lines_nf.
  intros Hok Hfrom Hj. unfold blocks_before.
  induction blocks as [|x blocks IH]; [reflexivity|].
  inversion Hok as [|? ? Hx Hrest]; subst.
  destruct Hfrom as [Hlo Hnext].
  pose proof (span_ok_bounds x Hx) as [Hse _].
  simpl. destruct (span_end x <? j) eqn:E.
  - apply Nat.ltb_lt in E. lia.
  - apply IH; [assumption|]. eapply spans_from_le; [|exact Hnext]. lia.
Qed.

Lemma blocks_before_cons (x : span) (blocks : list span) (j : nat) :
  blocks_before (x :: blocks) j
  = (if span_end x <? j then 1 else 0) + blocks_before blocks j.
Proof.
  unfold blocks_before. simpl. now destruct (span_end x <? j).
Qed.

(** The replacements put every line outside the blocks two places further
    for each block before it, and every block between its two fences. *)
Lemma apply_blocks_positions (blocks : list span) :
  forall lo, Forall (span_ok lines) blocks -> spans_from lo blocks ->
    List.length (apply_blocks blocks lines)
    = List.length lines + 2 * List.length blocks
    /\ (forall j, (forall b, In b blocks -> in_span j b = false) ->
          nth_error (apply_blocks blocks lines)
            (j + 2 * blocks_before blocks j)
          = nth_error lines j)
    /\ (forall b, In b blocks ->
          firstn (List.length (fenced_block (span_content b)))
            (skipn (span_start b + 2 * blocks_before blocks (span_start b))
               (apply_blocks blocks lines))
          = fenced_block (span_content b)).
Proof.
  induction blocks as [|x blocks IH]; intros lo Hok Hfrom.
  - simpl. repeat split.
    + lia.
    + intros j _. f_equal. unfold blocks_before. simpl. lia.
    + intros b [].
  - inversion Hok as [|? ? Hx Hrest]; subst.
    destruct Hfrom as [Hlo Hnext].
    destruct (IH _ Hrest Hnext) as (IHlen & IHout & IHin).
    pose proof (span_ok_bounds x Hx) as [Hse He].
    pose proof (span_ok_fenced_length x Hx) as Hflen.
    set (X := apply_blocks blocks lines) in *.
    assert (HeX : span_end x < List.length X) by lia.
    assert (Hzero : forall j, j <= S (span_end x) ->
                              blocks_before blocks j = 0).
    { intros j Hj. now apply (blocks_before_zero blocks (S (span_end x))). }
    assert (Hkeep : forall j, j <= span_end x ->
                              nth_error X j = nth_error lines j).
    { intros j Hj. rewrite <- (IHout j).
      - rewrite Hzero by lia. f_equal. lia.
      - intros b Hb. unfold in_span.
        pose proof (spans_from_start blocks _ Hrest Hnext b Hb).
        apply andb_false_intro1. apply Nat.leb_gt. lia. }
    change (apply_blocks (x :: blocks) lines) with (replace_block X x).
    repeat split.
    + rewrite replace_block_length by assumption. simpl. lia.
    + intros j Hj. rewrite blocks_before_cons.
      pose proof (Hj x (or_introl eq_refl)) as Hjx. unfold in_span in Hjx.
      destruct (span_end x <? j) eqn:E.
      * apply Nat.ltb_lt in E.
        replace (j + 2 * (1 + blocks_before blocks j))
          with (j + 2 * blocks_before blocks j + 2) by lia.
        rewrite nth_replace_after by (assumption || lia).
        apply IHout. intros b Hb. apply Hj. now right.
      * apply Nat.ltb_ge in E.
        assert (Hlt : j < span_start x).
        { apply andb_false_iff in Hjx as [H|H].
          - apply Nat.leb_gt in H. lia.
          - apply Nat.leb_gt in H. lia. }
        rewrite Hzero by lia.
        replace (j + 2 * (0 + 0)) with j by lia.
        rewrite nth_replace_before by lia.
        apply Hkeep. lia.
    + intros b [<-|Hb].
      * rewrite blocks_before_cons.
        replace (span_end x <? span_start x) with false
          by (symmetry; apply Nat.ltb_ge; lia).
        rewrite Hzero by lia.
        replace (span_start x + 2 * (0 + 0)) with (span_start x) by lia.
        apply skipn_replace_at. lia.
      * pose proof (spans_from_start blocks _ Hrest Hnext b Hb) as Hsb.
        rewrite blocks_before_cons.
        replace (span_end x <? span_start b) with true
          by (symmetry; apply Nat.ltb_lt; lia).
        replace (span_start b + 2 * (1 + blocks_before blocks (span_start b)))
          with (span_start b + 2 * blocks_before blocks (span_start b) + 2)
          by lia.
        rewrite skipn_replace_after by (assumption || lia).
        now apply IHin.
Qed.

End Positions.

(** ** Facts on the loop, line by line *)

Section LoopFacts.

Lemma finish_block_In (blocks : list span) (start : nat)
  (buf : list string) (b : span) :
  In b (finish_block blocks start buf) ->
  In b blocks
  \/ (span_start b = start /\ span_end b < start + List.length buf).
Proof.
  unfold finish_block. pose proof (trim_length_le buf) as Hle.
  destruct (trim_trailing_blank buf) as [|c cs]; [now left|].
  intros H. apply in_app_or in H as [H|[<-|[]]]; [now left|].
  right. unfold span_start, span_end. simpl in *. lia.
Qed.

Lemma step_inv (fm : option (nat * nat)) (st : scan_state) (i : nat)
  (l : string) :
  in_frontmatter fm i = false ->
  state_inv i st -> state_inv (S i) (step fm st i l).
Proof.
  intros Hfm [Hends Hcur]. unfold step. rewrite Hfm.
  destruct (is_fence l).
  - destruct (current_block_start st); split; simpl; auto;
      intros b Hb; specialize (Hends b Hb); lia.
  - destruct (in_fenced_block st) eqn:Ef.
    + destruct (current_block_start st) as [start|] eqn:Ec.
      * destruct Hcur as (_ & _ & Hf & _). congruence.
      * split; [|now rewrite Ec].
        intros b Hb. specialize (Hends b Hb). lia.
    + destruct (current_block_start st) as [start|] eqn:Ec.
      * destruct Hcur as (Hlen & Hne & _ & Hbefore).
        destruct (is_indented l || is_blank l).
        -- split; simpl.
           ++ intros b Hb. specialize (Hends b Hb). lia.
           ++ rewrite length_app. simpl. repeat split; auto; try lia.
              destruct (current_block_lines st); discriminate.
        -- split; simpl; [|exact I].
           intros b Hb. apply finish_block_In in Hb as [Hb|[_ Hb]].
           ++ specialize (Hends b Hb). lia.
           ++ lia.
      * destruct (is_indented l).
        -- split; simpl.
           ++ intros b Hb. specialize (Hends b Hb). lia.
           ++ repeat split; auto; try lia; discriminate.
        -- split; [|now rewrite Ec].
           intros b Hb. specialize (Hends b Hb). lia.
Qed.

Lemma firstn_succ_nth (ls : list string) (j : nat) (l : string) :
  nth_error ls j = Some l -> firstn (S j) ls = firstn j ls ++ [l].
Proof.
  revert j. induction ls as [|x ls IH]; intros j H.
  - destruct j; discriminate.
  - destruct j as [|j]; simpl in *.
    + now inversion H.
    + f_equal. now apply IH.
Qed.

(** Arriving at line [j + 1] is one iteration after arriving at [j]. *)
Lemma state_at_step (content : string) (j : nat) (l : string) :
  nth_error (split_nl content) j = Some l ->
  state_at content (S j)
  = step (detect_frontmatter_boundaries content) (state_at content j) j l.
Proof.
  intros H. unfold state_at.
  rewrite (firstn_succ_nth _ _ _ H), scan_loop_app. simpl.
  assert (Hj : j < List.length (split_nl content))
    by (apply nth_error_Some; congruence).
  rewrite length_firstn, Nat.min_l by lia. reflexivity.
Qed.

Lemma state_at_inv (content : string) (j : nat) :
  j <= List.length (split_nl content) -> state_inv j (state_at content j).
Proof.
  induction j as [|j IH]; intros Hj.
  - rewrite state_at_frontmatter by lia. split; [intros b []|exact I].
  - destruct (Nat.le_gt_cases (S j) (body_start content)) as [Hk|Hk].
    + rewrite state_at_frontmatter by assumption. split; [intros b []|exact I].
    + destruct (nth_error (split_nl content) j) as [l|] eqn:El.
      * rewrite (state_at_step _ _ _ El). apply step_inv.
        -- rewrite in_frontmatter_body. apply Nat.ltb_ge. lia.
        -- apply IH. lia.
      * apply nth_error_None in El. lia.
Qed.

Lemma converted_lines_apply (content : string) :
  converted_lines content
  = apply_blocks (detect_indented_code_blocks content) (split_nl content).
Proof.
  pose proof (apply_blocks_rebuild
                (skipn (body_start content) (split_nl content))
                (firstn (body_start content) (split_nl content))
                Prose (body_start content)) as H.
  simpl pending in H. rewrite !app_nil_r in H. cbn [app] in H.
  rewrite firstn_skipn, <- detect_scan in H.
  unfold converted_lines. symmetry. apply H.
  - rewrite length_firstn. pose proof (body_start_le content). lia.
  - exact I.
  - apply newline_free_skipn, split_nl_newline_free.
Qed.

(** The detected blocks are well formed, in order, and past the
    frontmatter. *)
Lemma detect_spans_ok (content : string) :
  Forall (span_ok (split_nl content)) (detect_indented_code_blocks content)
  /\ spans_from (body_start content) (detect_indented_code_blocks content).
Proof.
  pose proof (scan_spans_ok
                (skipn (body_start content) (split_nl content))
                (firstn (body_start content) (split_nl content))
                Prose (body_start content)) as H.
  simpl pending in H. rewrite !app_nil_r in H.
  rewrite firstn_skipn, <- detect_scan in H.
  apply H.
  - rewrite length_firstn. pose proof (body_start_le content). lia.
  - exact I.
  - exact I.
Qed.

(** No line of a detected block is met with the fence state on. *)
Lemma block_lines_not_fenced (content : string) (b : span) (j : nat) :
  In b (detect_indented_code_blocks content) ->
  span_start b <= j <= span_end b ->
  in_fenced_block (state_at content j) = false.
Proof.
  intros Hb Hj.
  destruct (detect_spans_ok content) as [Hok Hfrom].
  pose proof (proj1 (Forall_forall _ _) Hok b Hb) as Hbok.
  destruct (span_ok_bounds _ b Hbok) as [Hse He].
  pose proof (spans_from_start _ _ _ Hok Hfrom b Hb) as Hk.
  destruct (in_fenced_block (state_at content j)) eqn:Ef; [|reflexivity].
  exfalso.
  rewrite (detect_from_state content j) in Hb by lia.
  apply in_app_or in Hb as [Hb|Hb].
  - destruct (state_at_inv content j) as [Hends _]; [lia|].
    specialize (Hends b Hb). lia.
  - unfold mode_of in Hb. rewrite Ef in Hb.
    pose proof (scan_spans_ok (skipn j (split_nl content))
                  (firstn j (split_nl content)) Fenced j) as H.
    simpl pending in H. rewrite !app_nil_r in H.
    rewrite firstn_skipn in H.
    destruct H as [Hok' Hfrom'].
    + rewrite length_firstn. lia.
    + exact I.
    + exact I.
    + pose proof (spans_from_start _ _ _ Hok' Hfrom' b Hb) as Hlow.
      simpl in Hlow. lia.
Qed.

End LoopFacts.

(** ** Further facts *)

Section MoreFacts.

(** Blocks found from line [j] on, with no block open, start at [j] or
    later (after [j] when the fence state is on). *)
Lemma scan_tail_start (ls : list string) (j : nat) (m : mode) (b : span) :
  closed_mode m -> j <= List.length ls ->
  In b (scan j m (skipn j ls)) -> low m j <= span_start b.
Proof.
  intros Hm Hj Hb.
  pose proof (scan_spans_ok (skipn j ls) (firstn j ls) m j) as H.
  assert (Hp : pending m = []) by (destruct m; [reflexivity..|contradiction]).
  rewrite Hp, !app_nil_r in H.
  destruct H as [Hok Hfrom].
  - rewrite length_firstn. lia.
  - destruct m; simpl; auto. contradiction.
  - destruct m; simpl; auto. contradiction.
  - rewrite firstn_skipn in Hok.
    apply (spans_from_start ls _ _ Hok Hfrom b Hb).
Qed.

Lemma spans_from_ordered (ls : list string) (blocks : list span) :
  forall lo, Forall (span_ok ls) blocks -> spans_from lo blocks ->
    ForallOrdPairs
      (fun a b => span_start a < span_start b /\ span_end a < span_start b)
      blocks.
Proof.
  induction blocks as [|x blocks IH]; intros lo Hok Hfrom; [constructor|].
  inversion Hok as [|? ? Hx Hrest]; subst.
  destruct Hfrom as [Hlo Hnext].
  constructor; [|now apply (IH (S (span_end x)))].
  apply Forall_forall. intros b Hb.
  pose proof (spans_from_start ls _ _ Hrest Hnext b Hb).
  pose proof (span_ok_bounds ls x Hx). lia.
Qed.

Lemma nth_error_last_cons (c : string) (cs : list string) :
  nth_error (c :: cs) (List.length cs) = Some (last (c :: cs) EmptyString).
Proof.
  revert c. induction cs as [|x cs IH]; intros c; [reflexivity|].
  simpl List.length. cbn [nth_error]. rewrite IH. reflexivity.
Qed.

(** The lines of a block: the first is indented, the last is not blank,
    and each is an indented or a blank line that is no fence line. *)
Lemma span_ok_lines (ls : list string) (b : span) :
  span_ok ls b ->
  exists first last_line,
    nth_error ls (span_start b) = Some first
    /\ is_indented first = true
    /\ nth_error ls (span_end b) = Some last_line
    /\ is_blank last_line = false
    /\ forall j l, span_start b <= j <= span_end b ->
                   nth_error ls j = Some l -> block_line l.
Proof.
  intros (pre & core & post & c & cs & Hl & Hc & Hs & He & _ & Hind
          & Hlast & Hall).
  exists c, (last core EmptyString).
  rewrite Hs, He, Hl.
  assert (Hlen : List.length core = S (List.length cs))
    by (rewrite Hc; reflexivity).
  split; [|split; [|split; [|split]]].
  - rewrite nth_error_app2, Nat.sub_diag by lia. now rewrite Hc.
  - assumption.
  - rewrite nth_error_app2 by lia.
    replace (List.length pre + List.length cs - List.length pre)
      with (List.length cs) by lia.
    rewrite nth_error_app1 by lia.
    rewrite Hc. apply nth_error_last_cons.
  - assumption.
  - intros j l Hj Hnth.
    rewrite nth_error_app2 in Hnth by lia.
    rewrite nth_error_app1 in Hnth by lia.
    apply nth_error_In in Hnth.
    now apply (proj1 (Forall_forall _ _) Hall).
Qed.

(** Blank lines alone give no block. *)
Lemma scan_all_blank (ls : list string) :
  forall (i : nat) (m : mode),
    quiet m -> Forall (fun l => is_blank l = true) ls -> scan i m ls = [].
Proof.
  induction ls as [|l ls IH]; intros i m Hq Hb.
  - destruct m as [| |s buf]; simpl in *; try reflexivity.
    unfold emit, finish_block. now rewrite trim_all_blank.
  - inversion Hb as [|? ? Hl Hls]; subst.
    simpl. unfold emitted, next_mode.
    rewrite (is_blank_not_fence l Hl).
    destruct m as [| |s buf]; simpl in *; try contradiction.
    + destruct (is_indented l); apply IH; simpl; auto.
    + rewrite Hl, orb_true_r. simpl. apply IH; [|assumption].
      simpl. apply Forall_app. split; auto.
Qed.

(** Without an indented line no block is opened. *)
Lemma scan_no_indented_line (ls : list string) :
  forall (i : nat) (m : mode),
    closed_mode m -> Forall (fun l => is_indented l = false) ls ->
    scan i m ls = [].
Proof.
  induction ls as [|l ls IH]; intros i m Hm Hn.
  - destruct m; [reflexivity..|contradiction].
  - inversion Hn as [|? ? Hl Hls]; subst.
    simpl. unfold emitted, next_mode.
    destruct (is_fence l).
    + destruct m; simpl; try contradiction; now apply IH.
    + destruct m; simpl; try contradiction.
      * rewrite Hl. now apply IH.
      * now apply IH.
Qed.

(** A document none of whose lines starts with four spaces or a tab has
    no block, with or without frontmatter. *)
Lemma detect_no_indented_line (content : string) :
  Forall (fun l => is_indented l = false) (split_nl content) ->
  detect_indented_code_blocks content = [].
Proof.
  intros H. rewrite detect_scan.
  apply scan_no_indented_line; [exact I|].
  rewrite <- (firstn_skipn (body_start content)) in H.
  now apply Forall_app in H.
Qed.

Lemma find_closing_some (d : string) (rest : list string) :
  forall i e, find_closing d i rest = Some e ->
    i <= e
    /\ (exists x, nth_error rest (e - i) = Some x /\ strip x = d)
    /\ (forall j x, j < e - i -> nth_error rest j = Some x -> strip x <> d).
Proof.
  induction rest as [|l rest IH]; intros i e H; [discriminate|].
  simpl in H. destruct (String.eqb_spec (strip l) d) as [Heq|Hne].
  - inversion H; subst e. rewrite Nat.sub_diag. repeat split.
    + lia.
    + exists l. split; [reflexivity | assumption].
    + intros j x Hj. lia.
  - destruct (IH _ _ H) as (Hle & (x & Hx & Hxd) & Hbefore).
    replace (e - i) with (S (e - S i)) by lia.
    repeat split.
    + lia.
    + exists x. split; assumption.
    + intros j y Hj Hy. destruct j as [|j].
      * simpl in Hy. inversion Hy; subst. assumption.
      * simpl in Hy. apply (Hbefore j y); [lia | assumption].
Qed.

Lemma find_closing_none (d : string) (rest : list string) :
  forall i, find_closing d i rest = None ->
            forall j x, nth_error rest j = Some x -> strip x <> d.
Proof.
  induction rest as [|l rest IH]; intros i H j x Hx.
  - destruct j; discriminate.
  - simpl in H. destruct (String.eqb_spec (strip l) d) as [Heq|Hne];
      [discriminate|].
    destruct j as [|j]; simpl in Hx.
    + inversion Hx; subst. assumption.
    + apply (IH _ H j x Hx).
Qed.

End MoreFacts.

(** ** The properties of the specification *)

Section Properties.

(** C1 (idempotence).  For every document, converting the converted
    document gives the converted document again: the fenced blocks written
    by the first pass are never detected as indented blocks by the second,
    and the frontmatter and the fence state of every other line are the
    same in both passes. *)
Theorem convert_idempotent (content : string) :
  convert_to_fenced_blocks (convert_to_fenced_blocks content)
  = convert_to_fenced_blocks content.
Proof.
  rewrite (convert_rebuild (convert_to_fenced_blocks content)).
  rewrite body_start_convert, split_convert.
  rewrite (convert_rebuild content). fold (converted_lines content).
  f_equal. unfold converted_lines at 1 2.
  pose proof (body_start_le content) as Hk.
  rewrite firstn_app, skipn_app.
  rewrite length_firstn, Nat.min_l by assumption.
  rewrite Nat.sub_diag. cbn [firstn skipn].
  rewrite firstn_all2 by (rewrite length_firstn; lia).
  rewrite skipn_all2 by (rewrite length_firstn; lia).
  rewrite app_nil_r. cbn [app].
  unfold converted_lines. f_equal.
  apply (rebuild_rebuild _ (body_start content) (body_start content) Prose I).
Qed.

(** C2 (no-op).  When the detector finds no block in a document, the
    converter returns the document itself; the converter is a total
    function, so no error is possible. *)
Theorem convert_without_blocks (content : string) :
  detect_indented_code_blocks content = [] ->
  convert_to_fenced_blocks content = content.
Proof.
  intros Hnone. unfold convert_to_fenced_blocks.
  rewrite Hnone. reflexivity.
Qed.

(** The empty document has no block and is returned as it is. *)
Lemma convert_without_blocks_witness :
  detect_indented_code_blocks EmptyString = []
  /\ convert_to_fenced_blocks EmptyString = EmptyString.
Proof.
  split; [reflexivity|].
  apply (convert_without_blocks EmptyString). reflexivity.
Defined.

(** C3 (frontmatter preservation).  When the document has a frontmatter
    range [(fs, fe)], every line [j] of the range is a line of the
    document and stands unchanged at the same index [j] of the converted
    document, whatever its indentation. *)
Theorem frontmatter_lines_preserved (content : string) (fs fe j : nat) :
  detect_frontmatter_boundaries content = Some (fs, fe) ->
  fs <= j <= fe ->
  nth_error (split_nl (convert_to_fenced_blocks content)) j
  = nth_error (split_nl content) j
  /\ nth_error (split_nl content) j <> None.
Proof.
  intros Hfm Hj.
  destruct (frontmatter_range content fs fe Hfm) as [-> Hfe].
  assert (Hk : body_start content = S fe)
    by (unfold body_start; now rewrite Hfm).
  destruct (detect_spans_ok content) as [Hok Hfrom].
  rewrite Hk in Hfrom.
  destruct (apply_blocks_positions (split_nl content)
              (split_nl_newline_free content) _ _ Hok Hfrom)
    as (_ & Hout & _).
  split.
  - rewrite split_convert, converted_lines_apply.
    rewrite <- (Hout j).
    + rewrite (blocks_before_zero (split_nl content) _ (S fe)) by
        (assumption || lia).
      f_equal. lia.
    + intros b Hb. unfold in_span.
      pose proof (spans_from_start _ _ _ Hok Hfrom b Hb).
      apply andb_false_intro1. apply Nat.leb_gt. lia.
  - apply nth_error_Some. lia.
Qed.

(** An indented line inside a [+++] frontmatter stays as it is. *)
Lemma frontmatter_lines_preserved_witness :
  nth_error (split_nl (convert_to_fenced_blocks doc_frontmatter)) 1
  = nth_error (split_nl doc_frontmatter) 1
  /\ nth_error (split_nl doc_frontmatter) 1 <> None.
Proof.
  apply (frontmatter_lines_preserved doc_frontmatter 0 2 1).
  - reflexivity.
  - lia.
Defined.

(** C4 (fence state).  A line that the loop reaches with the fence state
    on lies in no detected block, and the converted document holds it
    unchanged, two places further for every block that ends before it;
    this holds whatever the line starts with. *)
Theorem fenced_lines_untouched (content : string) (j : nat) (l : string) :
  nth_error (split_nl content) j = Some l ->
  in_fenced_block (state_at content j) = true ->
  (forall b, In b (detect_indented_code_blocks content) ->
             in_span j b = false)
  /\ nth_error (split_nl (convert_to_fenced_blocks content))
       (j + 2 * blocks_before (detect_indented_code_blocks content) j)
     = Some l.
Proof.
  intros Hl Hfenced.
  assert (Hout : forall b, In b (detect_indented_code_blocks content) ->
                           in_span j b = false).
  { intros b Hb. destruct (in_span j b) eqn:E; [|reflexivity].
    unfold in_span in E. apply andb_prop in E as [E1 E2].
    apply Nat.leb_le in E1. apply Nat.leb_le in E2.
    rewrite (block_lines_not_fenced content b j Hb) in Hfenced by lia.
    discriminate. }
  split; [exact Hout|].
  destruct (detect_spans_ok content) as [Hok Hfrom].
  destruct (apply_blocks_positions (split_nl content)
              (split_nl_newline_free content) _ _ Hok Hfrom)
    as (_ & Hpos & _).
  rewrite split_convert, converted_lines_apply, (Hpos j Hout).
  exact Hl.
Qed.

(** The indented line 3 lies between two fence lines, after one block. *)
Lemma fenced_lines_untouched_witness :
  (forall b, In b (detect_indented_code_blocks doc_fenced) ->
             in_span 3 b = false)
  /\ nth_error (split_nl (convert_to_fenced_blocks doc_fenced))
       (3 + 2 * blocks_before (detect_indented_code_blocks doc_fenced) 3)
     = Some "    x".
Proof.
  apply (fenced_lines_untouched doc_fenced 3 "    x"); reflexivity.
Defined.

(** C5 (unindenter).  The unindenter keeps the number of lines, and its
    line [j] is computed from line [j] of the input alone: four leading
    spaces are removed if the line starts with them, else one leading tab
    if the line starts with one, else nothing; what follows the removed
    prefix is kept as it is. *)
Theorem unindent_code_linewise (code_content : string) (j : nat)
  (l : string) :
  nth_error (split_nl code_content) j = Some l ->
  List.length (split_nl (unindent_code code_content))
  = List.length (split_nl code_content)
  /\ exists l',
      nth_error (split_nl (unindent_code code_content)) j = Some l'
      /\ ((startswith l four_spaces = true
           /\ l = (four_spaces ++ l')%string)
          \/ (startswith l four_spaces = false
              /\ startswith l tab_str = true
              /\ l = String tab l')
          \/ (startswith l four_spaces = false
              /\ startswith l tab_str = false
              /\ l' = l)).
Proof.
  intros Hl. rewrite split_unindent_code, length_map.
  split; [reflexivity|].
  exists (unindent_line l). split.
  - rewrite nth_error_map, Hl. reflexivity.
  - unfold unindent_line.
    destruct (startswith l four_spaces) eqn:E4.
    + left. split; [reflexivity|]. now apply startswith_four_spaces.
    + destruct (startswith l tab_str) eqn:Et.
      * right. left. repeat split. now apply startswith_tab.
      * right. right. repeat split.
Qed.

(** Line 1 has eight leading spaces and keeps four of them. *)
Lemma unindent_code_linewise_witness :
  List.length (split_nl (unindent_code code_nested))
  = List.length (split_nl code_nested)
  /\ exists l',
      nth_error (split_nl (unindent_code code_nested)) 1 = Some l'
      /\ ((startswith "        return 1" four_spaces = true
           /\ "        return 1" = (four_spaces ++ l')%string)
          \/ (startswith "        return 1" four_spaces = false
              /\ startswith "        return 1" tab_str = true
              /\ "        return 1" = String tab l')
          \/ (startswith "        return 1" four_spaces = false
              /\ startswith "        return 1" tab_str = false
              /\ l' = "        return 1")).
Proof.
  apply (unindent_code_linewise code_nested 1 "        return 1").
  reflexivity.
Defined.

(** C6 (discard at a fence).  When the loop reaches a fence line [n] with
    a block open since line [start], the fence state goes from off to on,
    the open block is dropped and nothing is appended to the blocks; and
    no block of the final result covers a line from [start] to [n]. *)
Theorem fence_discards_open_block (content : string) (n start : nat)
  (l : string) :
  nth_error (split_nl content) n = Some l ->
  is_fence l = true ->
  current_block_start (state_at content n) = Some start ->
  in_fenced_block (state_at content n) = false
  /\ state_at content (S n)
     = mk_state (code_blocks (state_at content n)) None [] true
  /\ forall b j, In b (detect_indented_code_blocks content) ->
                 start <= j <= n -> in_span j b = false.
Proof.
  intros Hl Hfence Hopen.
  assert (Hn : n < List.length (split_nl content))
    by (apply nth_error_Some; congruence).
  assert (Hk : body_start content < n).
  { destruct (Nat.le_gt_cases n (body_start content)) as [H|H]; [|exact H].
    rewrite state_at_frontmatter in Hopen by assumption. discriminate. }
  destruct (state_at_inv content n) as [Hends Hcur]; [lia|].
  rewrite Hopen in Hcur. destruct Hcur as (Hlen & _ & Hoff & Hbefore).
  assert (Hnext : state_at content (S n)
                  = mk_state (code_blocks (state_at content n)) None [] true).
  { rewrite (state_at_step content n l Hl). unfold step.
    rewrite in_frontmatter_body.
    replace (n <? body_start content) with false
      by (symmetry; apply Nat.ltb_ge; lia).
    now rewrite Hfence, Hopen, Hoff. }
  split; [exact Hoff|]. split; [exact Hnext|].
  intros b j Hb Hj. unfold in_span.
  rewrite (detect_from_state content (S n)) in Hb by lia.
  rewrite Hnext in Hb. unfold mode_of in Hb.
  cbn [in_fenced_block code_blocks] in Hb.
  apply in_app_or in Hb as [Hb|Hb].
  - specialize (Hbefore b Hb).
    apply andb_false_intro2. apply Nat.leb_gt. lia.
  - apply scan_tail_start in Hb; [|exact I|lia]. simpl in Hb.
    apply andb_false_intro1. apply Nat.leb_gt. lia.
Qed.

(** The block opened at line 0 is dropped at the fence line 2. *)
Lemma fence_discards_open_block_witness :
  in_fenced_block (state_at doc_interrupted 2) = false
  /\ state_at doc_interrupted 3
     = mk_state (code_blocks (state_at doc_interrupted 2)) None [] true
  /\ forall b j, In b (detect_indented_code_blocks doc_interrupted) ->
                 0 <= j <= 2 -> in_span j b = false.
Proof.
  apply (fence_discards_open_block doc_interrupted 2 0 "```");
    reflexivity.
Defined.

(** C7 (span invariant).  In the list of detected blocks every block has
    [start_line <= end_line]; of two blocks the earlier one starts and
    ends before the later one starts; and no line of a block lies in the
    frontmatter range or is reached with the fence state on. *)
Theorem detected_spans_invariant (content : string) :
  Forall (fun b => span_start b <= span_end b)
    (detect_indented_code_blocks content)
  /\ ForallOrdPairs
       (fun a b => span_start a < span_start b /\ span_end a < span_start b)
       (detect_indented_code_blocks content)
  /\ Forall
       (fun b => forall j, span_start b <= j <= span_end b ->
          in_frontmatter (detect_frontmatter_boundaries content) j = false
          /\ in_fenced_block (state_at content j) = false)
       (detect_indented_code_blocks content).
Proof.
  destruct (detect_spans_ok content) as [Hok Hfrom].
  split; [|split].
  - eapply Forall_impl; [|exact Hok].
    intros b Hb. now apply (span_ok_bounds (split_nl content)).
  - now apply (spans_from_ordered (split_nl content) _ (body_start content)).
  - apply Forall_forall. intros b Hb j Hj. split.
    + rewrite in_frontmatter_body. apply Nat.ltb_ge.
      pose proof (spans_from_start _ _ _ Hok Hfrom b Hb). lia.
    + now apply (block_lines_not_fenced content b j).
Qed.

(** Two blocks, lines 3 to 5 and line 10, after a frontmatter and around
    a fenced block. *)
Lemma detected_spans_invariant_witness :
  detect_indented_code_blocks doc_two_blocks
  = [(3, 5, doc ["    a"; EmptyString; "    b"]); (10, 10, String tab "c")]
  /\ ForallOrdPairs
       (fun a b => span_start a < span_start b /\ span_end a < span_start b)
       (detect_indented_code_blocks doc_two_blocks).
Proof.
  split; [reflexivity|].
  apply (detected_spans_invariant doc_two_blocks).
Defined.

(** C8, as stated, fails: line 0 need not be exactly [+++] or [---].  The
    detector compares the stripped lines, so a padded delimiter opens (and
    closes) a frontmatter as well. *)
Lemma frontmatter_exact_delimiter_counterexample :
  detect_frontmatter_boundaries doc_padded_frontmatter = Some (0, 1)
  /\ nth_error (split_nl doc_padded_frontmatter) 0 <> Some "+++"
  /\ nth_error (split_nl doc_padded_frontmatter) 0 <> Some "---".
Proof. repeat split; discriminate. Qed.

(** C8 (frontmatter detector), amended.  The detector returns a range
    exactly when line 0, stripped of leading and trailing whitespace, is
    [+++] or [---] and a later line strips to the same delimiter; the range
    is [(0, e)] with [e] the index of the first such line, the lines
    between being skipped; otherwise it returns the no-frontmatter value.
    The detector is a total function: no error is possible. *)
Theorem frontmatter_boundaries_spec (content : string) :
  match detect_frontmatter_boundaries content with
  | Some (fs, fe) =>
      fs = 0 /\ 1 <= fe
      /\ exists d l0 le,
          (d = "+++" \/ d = "---")
          /\ nth_error (split_nl content) 0 = Some l0 /\ strip l0 = d
          /\ nth_error (split_nl content) fe = Some le /\ strip le = d
          /\ forall j l, 1 <= j < fe ->
                         nth_error (split_nl content) j = Some l ->
                         strip l <> d
  | None =>
      forall d l0 e le,
        (d = "+++" \/ d = "---") ->
        nth_error (split_nl content) 0 = Some l0 -> strip l0 = d ->
        1 <= e -> nth_error (split_nl content) e = Some le ->
        strip le <> d
  end.
Proof.
  unfold detect_frontmatter_boundaries.
  destruct (split_nl content) as [|l0 rest] eqn:El.
  { now apply split_nl_not_nil in El. }
  assert (Hsome : forall d e,
             (d = "+++" \/ d = "---") -> strip l0 = d ->
             find_closing d 1 rest = Some e ->
             0 = 0 /\ 1 <= e
             /\ exists d' l0' le,
                 (d' = "+++" \/ d' = "---")
                 /\ nth_error (l0 :: rest) 0 = Some l0' /\ strip l0' = d'
                 /\ nth_error (l0 :: rest) e = Some le /\ strip le = d'
                 /\ forall j l, 1 <= j < e ->
                                nth_error (l0 :: rest) j = Some l ->
                                strip l <> d').
  { intros d e Hd H0 Hc.
    destruct (find_closing_some d rest 1 e Hc)
      as (Hle & (x & Hx & Hxd) & Hbefore).
    split; [reflexivity|]. split; [assumption|].
    exists d, l0, x. repeat split; try assumption.
    - destruct e as [|e]; [lia|]. simpl.
      now replace (S e - 1) with e in Hx by lia.
    - intros j l Hj Hnth. destruct j as [|j]; [lia|]. simpl in Hnth.
      apply (Hbefore j l); [lia | assumption]. }
  assert (Hnone : forall d,
             strip l0 = d -> find_closing d 1 rest = None ->
             forall d' l0' e le,
               (d' = "+++" \/ d' = "---") ->
               nth_error (l0 :: rest) 0 = Some l0' -> strip l0' = d' ->
               1 <= e -> nth_error (l0 :: rest) e = Some le ->
               strip le <> d').
  { intros d H0 Hc d' l0' e le _ Hl0 Hd' He Hle.
    simpl in Hl0. inversion Hl0; subst l0'.
    destruct e as [|e]; [lia|]. simpl in Hle.
    rewrite <- Hd', H0. apply (find_closing_none d rest 1 Hc e le Hle). }
  destruct (String.eqb_spec (strip l0) "+++") as [Hplus|Hplus].
  - destruct (find_closing "+++" 1 rest) as [e|] eqn:Ec.
    + apply (Hsome "+++"); auto.
    + now apply (Hnone "+++").
  - destruct (String.eqb_spec (strip l0) "---") as [Hminus|Hminus].
    + destruct (find_closing "---" 1 rest) as [e|] eqn:Ec.
      * apply (Hsome "---"); auto.
      * now apply (Hnone "---").
    + intros d l0' e le [->| ->] Hl0 Hd; simpl in Hl0;
        inversion Hl0; subst l0'; contradiction.
Qed.

(** The first line that strips to [---] closes the block; an opening
    delimiter without a closing one gives no frontmatter. *)
Lemma frontmatter_boundaries_spec_witness :
  detect_frontmatter_boundaries doc_nested_delimiters = Some (0, 2)
  /\ detect_frontmatter_boundaries (doc ["+++"; "---"; "x"]) = None
  /\ forall l, nth_error (split_nl (doc ["+++"; "---"; "x"])) 1 = Some l ->
               strip l <> "+++".
Proof.
  split; [reflexivity|]. split; [reflexivity|].
  intros l Hl.
  apply (frontmatter_boundaries_spec (doc ["+++"; "---"; "x"])
           "+++" "+++" 1 l);
    [now left | reflexivity | reflexivity | lia | exact Hl].
Defined.

(** C9, as stated, fails: a block can begin with a blank line.  A line of
    four spaces, or a line of one tab, is blank and matches the
    indentation pattern, so it starts a block, and the block is emitted
    with it when content follows. *)
Lemma blank_line_starts_block_counterexample :
  detect_indented_code_blocks doc_blank_start
  = [(0, 1, doc ["    "; "    x"])]
  /\ nth_error (split_nl doc_blank_start) 0 = Some "    "
  /\ is_blank "    " = true
  /\ current_block_start (state_at doc_blank_start 0) = None
  /\ current_block_start (state_at doc_blank_start 1) = Some 0
  /\ detect_indented_code_blocks doc_tab_blank_start
     = [(0, 1, doc [tab_str; String tab "x"])]
  /\ nth_error (split_nl doc_tab_blank_start) 0 = Some tab_str
  /\ is_blank tab_str = true
  /\ current_block_start (state_at doc_tab_blank_start 0) = None
  /\ current_block_start (state_at doc_tab_blank_start 1) = Some 0.
Proof. repeat split. Qed.

(** C9 (blank lines), amended.  In one iteration of the loop, outside the
    frontmatter and with the fence state off: a blank line that starts
    neither with four spaces nor with a tab, met with no block open,
    leaves the loop variables as they are (it never starts a block); a
    blank line met with a block open is appended to the block; and a
    blank line that starts with four spaces or with a tab, met with no
    block open, opens a block on its own line.  Every detected block
    begins with a line that starts with four spaces or a tab, ends with a
    line that is not blank, and holds only lines that start with four
    spaces or a tab or are blank; and a document of blank lines only has
    no block. *)
Theorem blank_lines_in_blocks :
  (forall fm st i l,
      is_blank l = true ->
      startswith l four_spaces = false -> startswith l tab_str = false ->
      current_block_start st = None ->
      step fm st i l = st)
  /\ (forall fm st i l start,
        is_blank l = true ->
        in_frontmatter fm i = false -> in_fenced_block st = false ->
        current_block_start st = Some start ->
        step fm st i l
        = mk_state (code_blocks st) (Some start)
            (current_block_lines st ++ [l]) false)
  /\ (forall fm st i l,
        is_blank l = true ->
        startswith l four_spaces = true \/ startswith l tab_str = true ->
        in_frontmatter fm i = false -> in_fenced_block st = false ->
        current_block_start st = None ->
        step fm st i l = mk_state (code_blocks st) (Some i) [l] false)
  /\ (forall content b,
        In b (detect_indented_code_blocks content) ->
        exists first last_line,
          nth_error (split_nl content) (span_start b) = Some first
          /\ (startswith first four_spaces = true
              \/ startswith first tab_str = true)
          /\ nth_error (split_nl content) (span_end b) = Some last_line
          /\ is_blank last_line = false
          /\ forall j l, span_start b <= j <= span_end b ->
                         nth_error (split_nl content) j = Some l ->
                         startswith l four_spaces = true
                         \/ startswith l tab_str = true
                         \/ is_blank l = true)
  /\ (forall content,
        Forall (fun l => is_blank l = true) (split_nl content) ->
        detect_indented_code_blocks content = []).
Proof.
  split; [|split; [|split; [|split]]].
  - intros fm st i l Hb H4 Ht Hnone. unfold step, is_indented.
    rewrite (is_blank_not_fence l Hb), Hnone, H4, Ht.
    destruct (in_frontmatter fm i), (in_fenced_block st); reflexivity.
  - intros fm st i l start Hb Hfm Hoff Hopen. unfold step.
    rewrite Hfm, (is_blank_not_fence l Hb), Hoff, Hopen, Hb, orb_true_r.
    reflexivity.
  - intros fm st i l Hb Hind Hfm Hoff Hnone. unfold step.
    assert (Hi : is_indented l = true).
    { unfold is_indented. apply orb_true_iff. exact Hind. }
    rewrite Hfm, (is_blank_not_fence l Hb), Hoff, Hnone, Hi.
    reflexivity.
  - intros content b Hb.
    destruct (detect_spans_ok content) as [Hok _].
    pose proof (proj1 (Forall_forall _ _) Hok b Hb) as Hbok.
    destruct (span_ok_lines _ b Hbok)
      as (first & last_line & H1 & H2 & H3 & H4 & H5).
    exists first, last_line.
    split; [exact H1|]. split.
    { unfold is_indented in H2. now apply orb_true_iff in H2. }
    split; [exact H3|]. split; [exact H4|].
    intros j l Hj Hl. destruct (H5 j l Hj Hl) as [_ Hq].
    unfold is_indented in Hq.
    apply orb_true_iff in Hq as [Hq|Hq]; [|now right; right].
    apply orb_true_iff in Hq as [Hq|Hq]; [now left | now right; left].
  - intros content Hblank. rewrite detect_scan.
    apply scan_all_blank; [exact I|].
    rewrite <- (firstn_skipn (body_start content)) in Hblank.
    now apply Forall_app in Hblank.
Qed.

(** Blank lines only, two of them indented: no block.  A line of two
    spaces opens no block and extends an open one; a line of one tab
    opens one. *)
Lemma blank_lines_in_blocks_witness :
  detect_indented_code_blocks doc_blank_only = []
  /\ step None init_state 0 "  " = init_state
  /\ step None (mk_state [] (Some 3) ["    x"] false) 4 "  "
     = mk_state [] (Some 3) ["    x"; "  "] false
  /\ step None init_state 7 tab_str = mk_state [] (Some 7) [tab_str] false
  /\ step None init_state 7 "    " = mk_state [] (Some 7) ["    "] false.
Proof.
  destruct blank_lines_in_blocks
    as (Hnever & Hextend & Hopen & _ & Hblank).
  split; [|split; [|split; [|split]]].
  - apply (Hblank doc_blank_only). repeat constructor.
  - apply (Hnever None init_state 0 "  "); reflexivity.
  - apply (Hextend None (mk_state [] (Some 3) ["    x"] false) 4 "  " 3);
      reflexivity.
  - apply (Hopen None init_state 7 tab_str);
      [reflexivity | now right | reflexivity..].
  - apply (Hopen None init_state 7 "    ");
      [reflexivity | now left | reflexivity..].
Defined.

(** C10 (line count).  The converted document has two lines more than the
    document for every detected block.  A block of [n] lines is replaced
    by [n + 2] lines: a fence, the [n] lines unindented, a fence; they
    stand two places further for every block before.  Every line outside
    the blocks, the blank lines trimmed off the end of a block among them,
    is carried over unchanged, two places further for every block that
    ends before it. *)
Theorem convert_line_count (content : string) :
  List.length (split_nl (convert_to_fenced_blocks content))
  = List.length (split_nl content)
    + 2 * List.length (detect_indented_code_blocks content)
  /\ (forall b, In b (detect_indented_code_blocks content) ->
        List.length (lines_of (split_nl content) b)
        = span_end b - span_start b + 1
        /\ span_content b = join_nl (lines_of (split_nl content) b)
        /\ firstn (List.length (lines_of (split_nl content) b) + 2)
             (skipn (span_start b
                     + 2 * blocks_before
                             (detect_indented_code_blocks content)
                             (span_start b))
                (split_nl (convert_to_fenced_blocks content)))
           = fence :: map unindent_line (lines_of (split_nl content) b)
               ++ [fence])
  /\ (forall j,
        (forall b, In b (detect_indented_code_blocks content) ->
                   in_span j b = false) ->
        nth_error (split_nl (convert_to_fenced_blocks content))
          (j + 2 * blocks_before (detect_indented_code_blocks content) j)
        = nth_error (split_nl content) j).
Proof.
  destruct (detect_spans_ok content) as [Hok Hfrom].
  pose proof (split_nl_newline_free content) as Hnf.
  destruct (apply_blocks_positions (split_nl content) Hnf _ _ Hok Hfrom)
    as (Hlen & Hout & Hin).
  rewrite split_convert, converted_lines_apply.
  split; [exact Hlen|]. split; [|exact Hout].
  intros b Hb.
  pose proof (proj1 (Forall_forall _ _) Hok b Hb) as Hbok.
  destruct (span_ok_lines_of _ b Hbok) as (Hcontent & _ & Hcount).
  destruct (span_ok_bounds _ b Hbok) as [Hse _].
  split; [lia|]. split; [exact Hcontent|].
  rewrite <- (span_ok_fenced _ Hnf b Hbok).
  etransitivity; [|exact (Hin b Hb)]. f_equal.
  rewrite (span_ok_fenced_length _ Hnf b Hbok). lia.
Qed.

(** Two blocks: two lines more for each, and line 8, which lies after the
    first block, stands two places further. *)
Lemma convert_line_count_witness :
  List.length (split_nl (convert_to_fenced_blocks doc_two_blocks))
  = List.length (split_nl doc_two_blocks)
    + 2 * List.length (detect_indented_code_blocks doc_two_blocks)
  /\ nth_error (split_nl (convert_to_fenced_blocks doc_two_blocks))
       (8 + 2 * blocks_before (detect_indented_code_blocks doc_two_blocks) 8)
     = nth_error (split_nl doc_two_blocks) 8.
Proof.
  destruct (convert_line_count doc_two_blocks) as (Hlen & _ & Hout).
  split; [exact Hlen|].
  apply (Hout 8).
  assert (E : detect_indented_code_blocks doc_two_blocks
              = [(3, 5, doc ["    a"; EmptyString; "    b"]);
                 (10, 10, String tab "c")])
    by (vm_compute; reflexivity).
  rewrite E. intros b [<-|[<-|[]]]; reflexivity.
Defined.

End Properties.

(** ** Further facts on the converter *)

Section ConvertFacts.

Lemma convert_twice (content : string) :
  convert_to_fenced_blocks (convert_to_fenced_blocks content)
  = convert_to_fenced_blocks content.
Proof.
  rewrite (convert_rebuild (convert_to_fenced_blocks content)).
  rewrite body_start_convert, split_convert.
  rewrite (convert_rebuild content). fold (converted_lines content).
  f_equal. unfold converted_lines at 1 2.
  pose proof (body_start_le content) as Hk.
  rewrite firstn_app, skipn_app.
  rewrite length_firstn, Nat.min_l by assumption.
  rewrite Nat.sub_diag. cbn [firstn skipn].
  rewrite firstn_all2 by (rewrite length_firstn; lia).
  rewrite skipn_all2 by (rewrite length_firstn; lia).
  rewrite app_nil_r. cbn [app].
  unfold converted_lines. f_equal.
  apply (rebuild_rebuild _ (body_start content) (body_start content) Prose I).
Qed.

Lemma split_convert_length (content : string) :
  List.length (split_nl (convert_to_fenced_blocks content))
  = List.length (split_nl content)
    + 2 * List.length (detect_indented_code_blocks content).
Proof. rewrite split_convert. apply converted_lines_length. Qed.

(** A document with a block is changed: it gets longer. *)
Lemma convert_changed (content : string) :
  detect_indented_code_blocks content <> [] ->
  convert_to_fenced_blocks content <> content.
Proof.
  intros Hne Heq.
  pose proof (split_convert_length content) as Hlen.
  rewrite Heq in Hlen.
  destruct (detect_indented_code_blocks content); [congruence|].
  simpl in Hlen. lia.
Qed.

Lemma last_app_r (a b : list string) (d : string) :
  b <> [] -> last (a ++ b) d = last b d.
Proof.
  intros Hb. induction a as [|x a IH]; [reflexivity|].
  simpl app. cbn [last]. destruct (a ++ b) eqn:E; [|exact IH].
  apply app_eq_nil in E as [_ E]. congruence.
Qed.

Lemma emit_lines_last (buf : list string) :
  buf <> [] ->
  last (emit_lines buf) EmptyString = last buf EmptyString
  \/ (last (emit_lines buf) EmptyString = fence
      /\ is_blank (last buf EmptyString) = false).
Proof.
  intros Hne. unfold emit_lines.
  pose proof (trim_split buf) as Hs.
  pose proof (trim_last_not_blank buf) as Hlast.
  destruct (trim_trailing_blank buf) as [|c core] eqn:E; [now left|].
  remember (c :: core) as cr eqn:Ecr.
  destruct (skipn (List.length cr) buf) as [|t trail] eqn:Et.
  - right. rewrite app_nil_r in Hs. split.
    + change (fence :: map unindent_line cr ++ [fence])
        with ((fence :: map unindent_line cr) ++ [fence]).
      apply last_last.
    + rewrite Hs. apply Hlast. rewrite Ecr. discriminate.
  - left. rewrite Hs.
    change (fence :: map unindent_line cr ++ fence :: t :: trail)
      with ((fence :: map unindent_line cr) ++ fence :: t :: trail).
    rewrite (last_app_r _ (fence :: t :: trail)) by discriminate.
    rewrite (last_app_r cr (t :: trail)) by discriminate.
    reflexivity.
Qed.

Lemma rebuild_not_nil (lines : list string) (i : nat) (m : mode) :
  pending m ++ lines <> [] -> rebuild i m lines <> [].
Proof.
  intros Hne Hnil.
  pose proof (rebuild_length lines i m) as Hlen.
  rewrite Hnil in Hlen. simpl in Hlen.
  destruct (pending m), lines; simpl in *; try congruence; lia.
Qed.

Lemma written_last (m : mode) (l : string) :
  pending (next_mode 0 m l) = [] ->
  written m l <> [] /\ last (written m l) EmptyString = l.
Proof.
  unfold next_mode, written.
  destruct (is_fence l).
  - intros _. split; [destruct (pending m); discriminate | apply last_last].
  - destruct m as [| |s buf]; simpl.
    + destruct (is_indented l); [discriminate|]. intros _. now split.
    + intros _. now split.
    + destruct (is_indented l || is_blank l); simpl.
      * intros H. destruct buf; discriminate.
      * intros _. split;
          [destruct (emit_lines buf); discriminate | apply last_last].
Qed.

Lemma next_mode_pending_last (i : nat) (m : mode) (l : string) :
  pending (next_mode i m l) <> [] ->
  last (pending (next_mode i m l)) EmptyString = l.
Proof.
  unfold next_mode. destruct (is_fence l).
  - destruct m; simpl; congruence.
  - destruct m as [| |s buf]; simpl; try congruence.
    + destruct (is_indented l); simpl; congruence.
    + destruct (is_indented l || is_blank l); simpl; [|congruence].
      intros _. apply last_last.
Qed.

Lemma next_mode_index (i j : nat) (m : mode) (l : string) :
  pending (next_mode i m l) = pending (next_mode j m l).
Proof.
  unfold next_mode. destruct (is_fence l); [reflexivity|].
  destruct m; simpl; try reflexivity.
  destruct (is_indented l); reflexivity.
Qed.

(** The last line written is the last line read, or the closing fence of
    a block that ends the document. *)
Lemma rebuild_last (lines : list string) :
  forall (i : nat) (m : mode),
    pending m ++ lines <> [] ->
    last (rebuild i m lines) EmptyString
    = last (pending m ++ lines) EmptyString
    \/ (last (rebuild i m lines) EmptyString = fence
        /\ is_blank (last (pending m ++ lines) EmptyString) = false).
Proof.
  induction lines as [|l rest IH]; intros i m Hne.
  - rewrite app_nil_r in *. destruct m as [| |s buf]; simpl in *;
      try congruence.
    now apply emit_lines_last.
  - simpl rebuild.
    destruct (list_eq_dec string_dec
                (pending (next_mode i m l) ++ rest) []) as [Hnil|Hsome].
    + apply app_eq_nil in Hnil as [Hp ->].
      rewrite (next_mode_index i 0) in Hp.
      destruct (written_last m l Hp) as [Hw Hl].
      left.
      replace (rebuild (S i) (next_mode i m l) [])
        with (@nil string).
      * rewrite app_nil_r, Hl. symmetry. apply last_last.
      * rewrite (next_mode_index 0 i) in Hp.
        destruct (next_mode i m l) as [| |s buf]; simpl in *;
          try reflexivity.
        subst buf. reflexivity.
    + assert (Hlast : last (pending m ++ l :: rest) EmptyString
                      = last (pending (next_mode i m l) ++ rest)
                          EmptyString).
      { destruct rest as [|r rest'].
        - rewrite app_nil_r in *.
          rewrite (next_mode_pending_last i m l Hsome). apply last_last.
        - rewrite (last_app_r (pending m) (l :: r :: rest')) by discriminate.
          rewrite (last_app_r _ (r :: rest')) by discriminate.
          reflexivity. }
      rewrite Hlast.
      rewrite (last_app_r (written m l)) by now apply rebuild_not_nil.
      now apply IH.
Qed.



End ConvertFacts.

(** ** Facts on the file layer *)

Section FileFacts.

Context {FS C E : Type} (io : file_ops FS C E) (po : path_ops).

Lemma fold_left_select {A B : Type} (f : A -> bool) (g : A -> B)
  (l : list A) (acc : list B) :
  fold_left (fun acc x => if f x then acc ++ [g x] else acc) l acc
  = acc ++ map g (filter f l).
Proof.
  revert acc. induction l as [|x l IH]; intros acc; simpl.
  - now rewrite app_nil_r.
  - destruct (f x); rewrite IH; [|reflexivity].
    simpl. now rewrite <- app_assoc.
Qed.

Lemma markdown_files_among_filter (entries : list (string * bool)) :
  markdown_files_among po entries
  = sort_paths po (map fst (filter (is_markdown_file po) entries)).
Proof.
  unfold markdown_files_among. now rewrite fold_left_select.
Qed.

Lemma NoDup_map_filter {A B : Type} (g : A -> B) (f : A -> bool)
  (l : list A) :
  NoDup (map g l) -> NoDup (map g (filter f l)).
Proof.
  induction l as [|x l IH]; intros H; simpl; [constructor|].
  inversion H as [|? ? Hx Hl]; subst.
  destruct (f x); [|now apply IH].
  simpl. constructor; [|now apply IH].
  intros Hin. apply Hx. apply in_map_iff in Hin as (y & Hy & Hin).
  apply in_map_iff. exists y. split; [assumption|].
  now apply filter_In in Hin.
Qed.

(** Distinct names in the directory give distinct markdown files, each a
    name of the directory. *)
Lemma markdown_files_among_distinct (entries : list (string * bool)) :
  sort_permutes po -> NoDup (map fst entries) ->
  NoDup (markdown_files_among po entries)
  /\ forall p, In p (markdown_files_among po entries) ->
               In p (map fst entries).
Proof.
  intros Hsort Hnd. rewrite markdown_files_among_filter. split.
  - apply (Permutation_NoDup (Permutation_sym (Hsort _))).
    now apply NoDup_map_filter.
  - intros p Hp. apply (Permutation_in _ (Hsort _)) in Hp.
    apply in_map_iff in Hp as (e & He & Hin).
    apply in_map_iff. exists e. split; [assumption|].
    now apply filter_In in Hin.
Qed.

(** The comparison [original_content != converted_content] tells whether
    a block was detected. *)
Lemma changed_test (t : string) :
  negb (String.eqb t (convert_to_fenced_blocks t))
  = match detect_indented_code_blocks t with
    | [] => false
    | _ :: _ => true
    end.
Proof.
  destruct (detect_indented_code_blocks t) as [|b bs] eqn:Ed.
  - unfold convert_to_fenced_blocks. rewrite Ed.
    now rewrite String.eqb_refl.
  - destruct (String.eqb_spec t (convert_to_fenced_blocks t)) as [Heq|Hne];
      [|reflexivity].
    exfalso. apply (convert_changed t); [rewrite Ed; discriminate|].
    now symmetry.
Qed.

Lemma no_block_after_convert (t : string) :
  detect_indented_code_blocks (convert_to_fenced_blocks t) = [].
Proof.
  pose proof (split_convert_length (convert_to_fenced_blocks t)) as Hlen.
  rewrite convert_twice in Hlen.
  destruct (detect_indented_code_blocks (convert_to_fenced_blocks t));
    [reflexivity|].
  simpl in Hlen. lia.
Qed.

Lemma convert_no_block (t : string) :
  detect_indented_code_blocks t = [] -> convert_to_fenced_blocks t = t.
Proof. intros Hd. unfold convert_to_fenced_blocks. now rewrite Hd. Qed.

Lemma has_block_after_convert (fs fs' : FS) (p : string) :
  read_text io fs' p = converted_text (read_text io fs p) ->
  has_block io fs' p = false.
Proof.
  intros Hr. unfold has_block. rewrite Hr.
  destruct (read_text io fs p) as [t|e]; simpl; [|reflexivity].
  now rewrite no_block_after_convert.
Qed.

(** *** Blocks of statements *)

Lemma bind_returned {A B : Type} (m : action FS C E A)
  (k : A -> action FS C E B) (s s' : FS * C) (a : A) :
  m s = (s', Returned a) -> bind m k s = k a s'.
Proof. intros H. unfold bind. now rewrite H. Qed.

Lemma bind_inv {A B : Type} (m : action FS C E A)
  (k : A -> action FS C E B) (s s2 : FS * C) (b : B) :
  bind m k s = (s2, Returned b) ->
  exists s1 a, m s = (s1, Returned a) /\ k a s1 = (s2, Returned b).
Proof.
  unfold bind. destruct (m s) as [s1 [a|e]]; intros H;
    [eauto | discriminate].
Qed.

Lemma print_line_inv (m : message E) (s s' : FS * C) (u : unit) :
  print_line io m s = (s', Returned u) -> fst s' = fst s.
Proof. unfold print_line. intros H. now inversion H. Qed.

Lemma print_line_ok (m : message E) (fs : FS) (c : C) :
  prints_succeed io ->
  print_line io m (fs, c) = ((fs, fst (print_out io c m)), Returned tt).
Proof. intros Hp. unfold print_line. cbn [fst snd]. now rewrite Hp. Qed.

Lemma keeps_ret {A : Type} (I : FS -> Prop) (a : A) :
  keeps I (ret (FS := FS) (C := C) (E := E) a).
Proof. intros fs c H. exact H. Qed.

Lemma keeps_bind {A B : Type} (I : FS -> Prop) (m : action FS C E A)
  (k : A -> action FS C E B) :
  keeps I m -> (forall a, keeps I (k a)) -> keeps I (bind m k).
Proof.
  intros Hm Hk fs c HI. specialize (Hm fs c HI). unfold bind.
  destruct (m (fs, c)) as [[fs' c'] [a|e]]; unfold files_after in *;
    cbn [fst] in *.
  - now apply Hk.
  - exact Hm.
Qed.

Lemma keeps_try_except {A : Type} (I : FS -> Prop)
  (body : action FS C E A) (handler : E -> action FS C E A) :
  keeps I body -> (forall e, keeps I (handler e)) ->
  keeps I (try_except io body handler).
Proof.
  intros Hm Hk fs c HI. specialize (Hm fs c HI). unfold try_except.
  destruct (body (fs, c)) as [[fs' c'] [a|e]]; unfold files_after in *;
    cbn [fst] in *.
  - exact Hm.
  - destruct (is_exception io e); [now apply Hk | exact Hm].
Qed.

Lemma keeps_read_file (I : FS -> Prop) (p : string) :
  keeps I (read_file io p).
Proof. intros fs c H. exact H. Qed.

Lemma keeps_list_dir (I : FS -> Prop) : keeps I (list_dir io).
Proof. intros fs c H. exact H. Qed.

Lemma keeps_print_line (I : FS -> Prop) (m : message E) :
  keeps I (print_line io m).
Proof. intros fs c H. exact H. Qed.

Lemma keeps_write_file (I : FS -> Prop) (p t : string) :
  (forall fs, I fs -> I (fst (write_text io fs p t))) ->
  keeps I (write_file io p t).
Proof. intros Hw fs c H. now apply Hw. Qed.

(** [process_file] keeps what writing the file keeps. *)
Lemma keeps_process_file (I : FS -> Prop) (p : string) :
  (forall fs t, I fs -> I (fst (write_text io fs p t))) ->
  keeps I (process_file io p).
Proof.
  intros Hw. unfold process_file. apply keeps_try_except.
  - apply keeps_bind; [apply keeps_read_file|]. intros t. cbv zeta.
    destruct (negb (String.eqb t (convert_to_fenced_blocks t))).
    + apply keeps_bind; [apply keeps_write_file; intros fs; apply Hw|].
      intros _. apply keeps_bind; [apply keeps_print_line|].
      intros _. apply keeps_ret.
    + apply keeps_bind; [apply keeps_print_line|].
      intros _. apply keeps_ret.
  - intros e. apply keeps_bind; [apply keeps_print_line|].
    intros _. apply keeps_ret.
Qed.

Lemma keeps_process_one (I : FS -> Prop) (p : string) (pc ec : nat) :
  (forall fs t, I fs -> I (fst (write_text io fs p t))) ->
  keeps I (process_one io p pc ec).
Proof.
  intros Hw. unfold process_one. apply keeps_try_except.
  - apply keeps_bind; [now apply keeps_process_file|].
    intros b. apply keeps_ret.
  - intros e. apply keeps_bind; [apply keeps_print_line|].
    intros _. apply keeps_ret.
Qed.

Lemma keeps_process_loop (I : FS -> Prop) (files : list string) :
  (forall p fs t, In p files -> I fs -> I (fst (write_text io fs p t))) ->
  forall pc ec, keeps I (process_loop io files pc ec).
Proof.
  induction files as [|p files IH]; intros Hw pc ec; cbn [process_loop].
  - apply keeps_ret.
  - apply keeps_bind.
    + apply keeps_process_one. intros fs t. apply Hw. now left.
    + intros counts. apply IH. intros q fs t Hq. apply Hw. now right.
Qed.

Lemma keeps_process_found (I : FS -> Prop) (files : list string) :
  (forall p fs t, In p files -> I fs -> I (fst (write_text io fs p t))) ->
  keeps I (process_found io files).
Proof.
  intros Hw. unfold process_found. destruct files as [|p files].
  - apply keeps_bind; [apply keeps_print_line|].
    intros _. apply keeps_ret.
  - apply keeps_bind; [apply keeps_print_line|]. intros _.
    apply keeps_bind; [now apply keeps_process_loop|]. intros counts.
    cbv zeta.
    repeat (apply keeps_bind; [apply keeps_print_line|]; intros _).
    apply keeps_ret.
Qed.

Lemma find_markdown_files_listed (fs : FS) (c : C) :
  find_markdown_files io po (fs, c)
  = ((fs, c),
     match iterdir io fs with
     | Returned entries => Returned (markdown_files_among po entries)
     | Raised e => Raised e
     end).
Proof.
  unfold find_markdown_files, list_dir, bind, ret. cbn [fst].
  destruct (iterdir io fs) as [entries|e]; reflexivity.
Qed.

(** [process_all_files] is the listing followed by the rest. *)
Lemma process_all_files_listed (fs : FS) (c : C) :
  process_all_files io po (fs, c)
  = match iterdir io fs with
    | Returned entries =>
        process_found io (markdown_files_among po entries) (fs, c)
    | Raised e => ((fs, c), Raised e)
    end.
Proof.
  unfold process_all_files, find_markdown_files, list_dir.
  unfold bind at 1 2. cbn [fst].
  destruct (iterdir io fs) as [entries|e]; reflexivity.
Qed.

(** *** Runs of [process_file] *)

Lemma process_file_true_inv (fs fs' : FS) (c c' : C) (p : string) :
  process_file io p (fs, c) = ((fs', c'), Returned true) ->
  exists t,
    read_text io fs p = Returned t
    /\ detect_indented_code_blocks t <> []
    /\ write_text io fs p (convert_to_fenced_blocks t) = (fs', Returned tt).
Proof.
  unfold process_file, try_except, bind, ret, read_file, write_file,
    print_line.
  cbn [fst snd].
  destruct (read_text io fs p) as [t|e] eqn:Er; cbn [fst snd].
  - rewrite changed_test.
    destruct (detect_indented_code_blocks t) as [|b bs] eqn:Ed;
      cbn [fst snd].
    + destruct (print_out io c (Msg_no_changes p)) as [c1 [[]|e1]];
        cbn [fst snd]; [discriminate|].
      destruct (is_exception io e1); [|discriminate].
      destruct (print_out io c1 (Msg_error_processing p e1))
        as [c2 [[]|e2]]; discriminate.
    + destruct (write_text io fs p (convert_to_fenced_blocks t))
        as [fs1 [[]|e1]] eqn:Ew; cbn [fst snd].
      * destruct (print_out io c (Msg_processed p)) as [c1 [[]|e1]];
          cbn [fst snd].
        -- intros H. inversion H; subst. exists t.
           split; [reflexivity|].
           split; [rewrite Ed; discriminate | exact Ew].
        -- destruct (is_exception io e1); [|discriminate].
           destruct (print_out io c1 (Msg_error_processing p e1))
             as [c2 [[]|e2]]; discriminate.
      * destruct (is_exception io e1); [|discriminate].
        destruct (print_out io c (Msg_error_processing p e1))
          as [c2 [[]|e2]]; discriminate.
  - destruct (is_exception io e); [|discriminate].
    destruct (print_out io c (Msg_error_processing p e))
      as [c2 [[]|e2]]; discriminate.
Qed.

(** Without a block to convert, [process_file] writes nothing and does
    not return [True]. *)
Lemma process_file_no_block (fs : FS) (c : C) (p : string) :
  has_block io fs p = false ->
  files_after (process_file io p (fs, c)) = fs
  /\ outcome (process_file io p (fs, c)) <> Returned true.
Proof.
  unfold has_block, files_after, outcome.
  unfold process_file, try_except, bind, ret, read_file, write_file,
    print_line.
  cbn [fst snd].
  destruct (read_text io fs p) as [t|e] eqn:Er; cbn [fst snd].
  - rewrite changed_test.
    destruct (detect_indented_code_blocks t) as [|b bs] eqn:Ed;
      [intros _ | discriminate].
    cbn [fst snd].
    destruct (print_out io c (Msg_no_changes p)) as [c1 [[]|e1]];
      cbn [fst snd]; [split; [reflexivity | discriminate]|].
    destruct (is_exception io e1);
      [|split; [reflexivity | discriminate]].
    destruct (print_out io c1 (Msg_error_processing p e1))
      as [c2 [[]|e2]]; cbn [fst snd]; split;
      reflexivity || discriminate.
  - intros _. destruct (is_exception io e);
      [|split; [reflexivity | discriminate]].
    destruct (print_out io c (Msg_error_processing p e))
      as [c2 [[]|e2]]; cbn [fst snd]; split;
      reflexivity || discriminate.
Qed.

(** When no call of [print] raises, what [process_file] raises is not an
    instance of [Exception]. *)
Lemma process_file_raises (s s' : FS * C) (p : string) (e : E) :
  prints_succeed io ->
  process_file io p s = (s', Raised e) -> is_exception io e = false.
Proof.
  intros Hp. destruct s as [fs c].
  unfold process_file, try_except, bind, ret, read_file, write_file.
  cbn [fst snd].
  destruct (read_text io fs p) as [t|e0] eqn:Er; cbn [fst snd].
  - destruct (negb (String.eqb t (convert_to_fenced_blocks t)));
      cbn [fst snd].
    + destruct (write_text io fs p (convert_to_fenced_blocks t))
        as [fs1 [[]|e1]]; cbn [fst snd].
      * rewrite print_line_ok by assumption. discriminate.
      * destruct (is_exception io e1) eqn:Ex.
        -- rewrite print_line_ok by assumption. discriminate.
        -- intros H. inversion H; subst. exact Ex.
    + rewrite print_line_ok by assumption. discriminate.
  - destruct (is_exception io e0) eqn:Ex.
    + rewrite print_line_ok by assumption. discriminate.
    + intros H. inversion H; subst. exact Ex.
Qed.

(** When no call of [print] raises and what is raised is an instance of
    [Exception], [process_file] returns. *)
Lemma process_file_returns (s : FS * C) (p : string) :
  prints_succeed io -> raises_exceptions io ->
  exists s' b, process_file io p s = (s', Returned b).
Proof.
  intros Hp Hexc. destruct s as [fs c].
  unfold process_file, try_except, bind, ret, read_file, write_file.
  cbn [fst snd].
  destruct (read_text io fs p) as [t|e0] eqn:Er; cbn [fst snd].
  - destruct (negb (String.eqb t (convert_to_fenced_blocks t)));
      cbn [fst snd].
    + destruct (write_text io fs p (convert_to_fenced_blocks t))
        as [fs1 [[]|e1]] eqn:Ew; cbn [fst snd].
      * rewrite print_line_ok by assumption. eauto.
      * rewrite (proj2 Hexc fs p (convert_to_fenced_blocks t) e1)
          by now rewrite Ew.
        rewrite print_line_ok by assumption. eauto.
    + rewrite print_line_ok by assumption. eauto.
  - rewrite (proj1 Hexc fs p e0 Er).
    rewrite print_line_ok by assumption. eauto.
Qed.

(** A file that can be read and has no block, when no call of [print]
    raises. *)
Lemma process_file_unchanged (fs : FS) (c : C) (p t : string) :
  read_text io fs p = Returned t ->
  detect_indented_code_blocks t = [] ->
  prints_succeed io ->
  process_file io p (fs, c)
  = ((fs, fst (print_out io c (Msg_no_changes p))), Returned false).
Proof.
  intros Hr Hd Hp.
  unfold process_file, try_except, bind, ret, read_file.
  cbn [fst snd]. rewrite Hr. cbn [fst snd].
  rewrite changed_test, Hd. cbn [fst snd].
  now rewrite print_line_ok by assumption.
Qed.

Lemma process_file_idle_false (fs : FS) (c : C) (p : string) :
  has_block io fs p = false ->
  prints_succeed io -> raises_exceptions io ->
  exists c', process_file io p (fs, c) = ((fs, c'), Returned false).
Proof.
  intros Hnone Hp Hexc.
  destruct (process_file_no_block fs c p Hnone) as [Hfs Hout].
  destruct (process_file_returns (fs, c) p Hp Hexc) as ([fs' c'] & b & Hr).
  rewrite Hr in Hfs, Hout. unfold files_after, outcome in *.
  cbn [fst snd] in *. subst fs'. exists c'.
  destruct b; [now contradiction Hout | exact Hr].
Qed.

(** When moreover no write raises, [process_file] tells whether the file
    had a block and leaves the converted text in it. *)
Lemma process_file_converts (fs : FS) (c : C) (p : string) :
  write_then_read io -> writes_succeed io ->
  prints_succeed io -> raises_exceptions io ->
  exists fs' c',
    process_file io p (fs, c) = ((fs', c'), Returned (has_block io fs p))
    /\ read_text io fs' p = converted_text (read_text io fs p).
Proof.
  intros Hread Hw Hp Hexc.
  destruct (has_block io fs p) eqn:Hb.
  - revert Hb. unfold has_block.
    unfold process_file, try_except, bind, ret, read_file, write_file.
    cbn [fst snd].
    destruct (read_text io fs p) as [t|e0] eqn:Er; [|discriminate].
    cbn [fst snd]. rewrite changed_test.
    destruct (detect_indented_code_blocks t) as [|b0 bs]; [discriminate|].
    intros _. cbn [fst snd].
    pose proof (Hw fs p (convert_to_fenced_blocks t)) as Hok.
    destruct (write_text io fs p (convert_to_fenced_blocks t))
      as [fs1 r] eqn:Ew.
    cbn [fst snd] in *. subst r.
    rewrite print_line_ok by assumption.
    exists fs1, (fst (print_out io c (Msg_processed p))).
    split; [reflexivity|]. cbn [converted_text].
    now apply (Hread fs p).
  - destruct (process_file_idle_false fs c p Hb Hp Hexc) as [c' Hr].
    exists fs, c'. split; [exact Hr|].
    unfold has_block in Hb.
    destruct (read_text io fs p) as [t|e0]; [|reflexivity].
    cbn [converted_text]. rewrite convert_no_block; [reflexivity|].
    now destruct (detect_indented_code_blocks t).
Qed.

Lemma process_file_others (fs : FS) (c : C) (p q : string) :
  write_keeps_others io -> q <> p ->
  read_text io (files_after (process_file io p (fs, c))) q
  = read_text io fs q.
Proof.
  intros Hothers Hq.
  apply (keeps_process_file
           (fun f => read_text io f q = read_text io fs q) p);
    [|reflexivity].
  intros f t Hf. now rewrite Hothers.
Qed.

(** *** Runs of the loop *)

Lemma process_one_run (p : string) (pc ec : nat) (s : FS * C) :
  process_one io p pc ec s
  = match process_file io p s with
    | (s', Returned b) =>
        (s', Returned (if b then (pc + 1, ec) else (pc, ec)))
    | (s', Raised e) =>
        if is_exception io e
        then (print_line io (Msg_failed p e) ;; ret (pc, ec + 1)) s'
        else (s', Raised e)
    end.
Proof.
  unfold process_one, try_except. unfold bind at 1. unfold ret at 1.
  destruct (process_file io p s) as [s' [b|e]]; reflexivity.
Qed.

(** One iteration adds one to one counter at most. *)
Lemma process_one_counts (p : string) (pc ec pc' ec' : nat)
  (s s' : FS * C) :
  process_one io p pc ec s = (s', Returned (pc', ec')) ->
  (pc' = pc + 1 /\ ec' = ec) \/ (pc' = pc /\ ec' = ec)
  \/ (pc' = pc /\ ec' = ec + 1).
Proof.
  rewrite process_one_run.
  destruct (process_file io p s) as [s1 [b|e]].
  - intros H. inversion H as [[Hs Hc]].
    destruct b; inversion Hc; auto.
  - destruct (is_exception io e); [|discriminate].
    unfold bind, ret.
    destruct (print_line io (Msg_failed p e) s1) as [s2 [u|e2]];
      [|discriminate].
    intros H. inversion H. auto.
Qed.

Lemma process_loop_counts (files : list string) :
  forall pc ec pc' ec' s s',
    process_loop io files pc ec s = (s', Returned (pc', ec')) ->
    pc <= pc' /\ ec <= ec'
    /\ pc' + ec' <= pc + ec + List.length files.
Proof.
  induction files as [|p files IH]; intros pc ec pc' ec' s s';
    cbn [process_loop].
  - unfold ret. intros H. inversion H. simpl. lia.
  - intros H. apply bind_inv in H as (s1 & [pc1 ec1] & H1 & H2).
    apply process_one_counts in H1. apply IH in H2.
    cbn [fst snd List.length] in *. lia.
Qed.

Lemma process_one_no_error (p : string) (pc ec pc' ec' : nat)
  (s s' : FS * C) :
  prints_succeed io ->
  process_one io p pc ec s = (s', Returned (pc', ec')) -> ec' = ec.
Proof.
  intros Hp. rewrite process_one_run.
  destruct (process_file io p s) as [s1 [b|e]] eqn:Hr.
  - intros H. inversion H as [[Hs Hc]]. destruct b; now inversion Hc.
  - rewrite (process_file_raises s s1 p e Hp Hr). discriminate.
Qed.

Lemma process_loop_no_error (files : list string) :
  prints_succeed io ->
  forall pc ec pc' ec' s s',
    process_loop io files pc ec s = (s', Returned (pc', ec')) -> ec' = ec.
Proof.
  intros Hp. induction files as [|p files IH]; intros pc ec pc' ec' s s';
    cbn [process_loop].
  - unfold ret. intros H. now inversion H.
  - intros H. apply bind_inv in H as (s1 & [pc1 ec1] & H1 & H2).
    apply (process_one_no_error _ _ _ _ _ _ _ Hp) in H1.
    apply IH in H2. cbn [fst snd] in *. congruence.
Qed.

Lemma process_loop_returns (files : list string) :
  prints_succeed io -> raises_exceptions io ->
  forall pc ec s,
    exists s' counts,
      process_loop io files pc ec s = (s', Returned counts).
Proof.
  intros Hp Hexc. induction files as [|p files IH]; intros pc ec s;
    cbn [process_loop].
  - unfold ret. eauto.
  - destruct (process_file_returns s p Hp Hexc) as (s1 & b & Hr).
    assert (H1 : process_one io p pc ec s
                 = (s1, Returned (if b then (pc + 1, ec) else (pc, ec))))
      by (rewrite process_one_run, Hr; reflexivity).
    rewrite (bind_returned _ _ _ _ _ H1). apply IH.
Qed.

Lemma process_loop_others (files : list string) (q : string)
  (pc ec : nat) (fs : FS) (c : C) :
  write_keeps_others io -> ~ In q files ->
  read_text io (files_after (process_loop io files pc ec (fs, c))) q
  = read_text io fs q.
Proof.
  intros Hothers Hq.
  apply (keeps_process_loop
           (fun f => read_text io f q = read_text io fs q) files);
    [|reflexivity].
  intros p f t Hp Hf. rewrite Hothers; [exact Hf|].
  intros ->. contradiction.
Qed.

(** The loop when nothing raises but a read, and the files are
    distinct. *)
Lemma process_loop_converts (files : list string) :
  write_then_read io -> write_keeps_others io -> writes_succeed io ->
  prints_succeed io -> raises_exceptions io ->
  NoDup files ->
  forall pc ec fs c,
    exists fs' c',
      process_loop io files pc ec (fs, c)
      = ((fs', c'),
         Returned
           (pc + List.length (filter (has_block io fs) files), ec))
      /\ forall p, In p files ->
           read_text io fs' p = converted_text (read_text io fs p).
Proof.
  intros Hread Hothers Hw Hp Hexc.
  induction files as [|p files IH]; intros Hnd pc ec fs c;
    cbn [process_loop].
  - exists fs, c. split; [|intros p []].
    unfold ret. simpl. do 3 f_equal. lia.
  - inversion Hnd as [|? ? Hnotin Hnd']; subst.
    destruct (process_file_converts fs c p Hread Hw Hp Hexc)
      as (fs1 & c1 & Hr & Htext).
    assert (Hfs1 : fs1 = files_after (process_file io p (fs, c)))
      by now rewrite Hr.
    assert (H1 : process_one io p pc ec (fs, c)
                 = ((fs1, c1),
                    Returned (if has_block io fs p
                              then (pc + 1, ec) else (pc, ec))))
      by (rewrite process_one_run, Hr; reflexivity).
    rewrite (bind_returned _ _ _ _ _ H1).
    assert (Hsame : forall q, In q files ->
                              read_text io fs1 q = read_text io fs q).
    { intros q Hq. rewrite Hfs1. apply process_file_others; [assumption|].
      intros ->. contradiction. }
    destruct (IH Hnd'
                (fst (if has_block io fs p
                      then (pc + 1, ec) else (pc, ec)))
                (snd (if has_block io fs p
                      then (pc + 1, ec) else (pc, ec)))
                fs1 c1) as (fs2 & c2 & Hloop & Hall).
    exists fs2, c2. split.
    + rewrite Hloop. do 2 f_equal.
      rewrite (filter_ext_in (has_block io fs1) (has_block io fs) files)
        by (intros q Hq; unfold has_block; now rewrite Hsame).
      cbn [filter]. destruct (has_block io fs p); cbn [fst snd List.length];
        f_equal; lia.
    + intros q [<-|Hq].
      * rewrite <- Htext.
        assert (Hfs2 : fs2 = files_after
                               (process_loop io files
                                  (fst (if has_block io fs p
                                        then (pc + 1, ec) else (pc, ec)))
                                  (snd (if has_block io fs p
                                        then (pc + 1, ec) else (pc, ec)))
                                  (fs1, c1)))
          by now rewrite Hloop.
        rewrite Hfs2. now apply process_loop_others.
      * rewrite Hall by assumption. now rewrite Hsame.
Qed.

(** The loop over files that have no block. *)
Lemma process_loop_idle (files : list string) (fs : FS) :
  prints_succeed io -> raises_exceptions io ->
  (forall p, In p files -> has_block io fs p = false) ->
  forall pc ec c,
    exists c',
      process_loop io files pc ec (fs, c) = ((fs, c'), Returned (pc, ec)).
Proof.
  intros Hp Hexc. induction files as [|p files IH]; intros Hnone pc ec c;
    cbn [process_loop].
  - exists c. reflexivity.
  - destruct (process_file_idle_false fs c p
                (Hnone p (or_introl eq_refl)) Hp Hexc) as [c1 Hr].
    assert (H1 : process_one io p pc ec (fs, c)
                 = ((fs, c1), Returned (pc, ec)))
      by (rewrite process_one_run, Hr; reflexivity).
    rewrite (bind_returned _ _ _ _ _ H1). cbn [fst snd].
    apply IH. intros q Hq. apply Hnone. now right.
Qed.

(** *** Runs of what follows the listing *)

(** What a result of [process_found] was computed from. *)
Lemma process_found_inv (files : list string) (s s' : FS * C)
  (st : stats) :
  process_found io files s = (s', Returned st) ->
  total st = List.length files
  /\ exists s0 s1,
       process_loop io files 0 0 s0
       = (s1, Returned (processed st, errors st)).
Proof.
  unfold process_found. destruct files as [|p files].
  - intros H. apply bind_inv in H as (s1 & u & _ & H).
    unfold ret in H. inversion H. split; [reflexivity|].
    exists s, s. reflexivity.
  - intros H. apply bind_inv in H as (s0 & u & _ & H).
    apply bind_inv in H as (s1 & [pc ec] & Hloop & H).
    cbv zeta in H.
    do 5 (apply bind_inv in H as (? & ? & _ & H)).
    unfold ret in H. inversion H. split; [reflexivity|].
    exists s0, s1. exact Hloop.
Qed.

(** When no call of [print] raises, [process_found] returns what the
    loop returns. *)
Lemma process_found_run (files : list string) (fs fs1 : FS) (c c2 : C)
  (counts : nat * nat) :
  prints_succeed io ->
  process_loop io files 0 0
    (fs, fst (print_out io c (Msg_found (List.length files))))
  = ((fs1, c2), Returned counts) ->
  exists c',
    process_found io files (fs, c)
    = ((fs1, c'),
       Returned (mk_stats (List.length files) (fst counts) (snd counts))).
Proof.
  intros Hp Hloop. unfold process_found.
  destruct files as [|p files].
  - rewrite (bind_returned _ _ _ _ _ (print_line_ok _ _ _ Hp)).
    cbn [process_loop] in Hloop. unfold ret in Hloop.
    inversion Hloop; subst. unfold ret. eauto.
  - rewrite (bind_returned _ _ _ _ _ (print_line_ok _ _ _ Hp)).
    rewrite (bind_returned _ _ _ _ _ Hloop). cbv zeta.
    do 5 rewrite (bind_returned _ _ _ _ _ (print_line_ok _ _ _ Hp)).
    unfold ret. eauto.
Qed.

(** The run of [process_all_files] when nothing raises but a read, and
    the names of the directory are distinct. *)
Lemma process_all_files_run (fs : FS) (c : C)
  (entries : list (string * bool)) :
  write_then_read io -> write_keeps_others io -> writes_succeed io ->
  prints_succeed io -> raises_exceptions io -> sort_permutes po ->
  iterdir io fs = Returned entries -> NoDup (map fst entries) ->
  exists fs' c' st,
    process_all_files io po (fs, c) = ((fs', c'), Returned st)
    /\ total st = List.length (markdown_files_among po entries)
    /\ processed st
       = List.length
           (filter (has_block io fs) (markdown_files_among po entries))
    /\ errors st = 0
    /\ forall p, In p (markdown_files_among po entries) ->
         read_text io fs' p = converted_text (read_text io fs p).
Proof.
  intros Hread Hothers Hw Hp Hexc Hsort Hlist Hnd.
  destruct (markdown_files_among_distinct entries Hsort Hnd)
    as [Hfiles _].
  rewrite process_all_files_listed, Hlist.
  destruct (process_loop_converts (markdown_files_among po entries)
              Hread Hothers Hw Hp Hexc Hfiles 0 0 fs
              (fst (print_out io c
                      (Msg_found
                         (List.length (markdown_files_among po entries))))))
    as (fs1 & c2 & Hloop & Hall).
  destruct (process_found_run _ fs fs1 c c2 _ Hp Hloop) as [c' Hrun].
  eexists fs1, c', _. split; [exact Hrun|].
  cbn [total processed errors fst snd]. repeat split.
  exact Hall.
Qed.

End FileFacts.

(** The environment of the examples is as assumed. *)
Section MemFacts.

Lemma mem_read_update_same (fs : mem_fs) (p t : string) :
  mem_read (mem_update fs p t) p = Returned t.
Proof.
  induction fs as [|[name text] fs IH]; simpl.
  - now rewrite String.eqb_refl.
  - destruct (String.eqb name p) eqn:Heq; simpl; rewrite Heq; auto.
Qed.

Lemma mem_read_update_other (fs : mem_fs) (p t q : string) :
  q <> p -> mem_read (mem_update fs p t) q = mem_read fs q.
Proof.
  intros Hq. induction fs as [|[name text] fs IH]; simpl.
  - destruct (String.eqb_spec p q); [congruence | reflexivity].
  - destruct (String.eqb_spec name p) as [->|Hn]; simpl.
    + destruct (String.eqb_spec p q); [congruence | reflexivity].
    + now rewrite IH.
Qed.

Lemma mem_update_names (fs : mem_fs) (p t : string) :
  In p (map fst fs) ->
  map (fun e => (fst e, true)) (mem_update fs p t)
  = map (fun e : string * string => (fst e, true)) fs.
Proof.
  induction fs as [|[name text] fs IH]; intros Hin; simpl in *.
  - contradiction.
  - destruct (String.eqb_spec name p) as [->|Hn]; simpl; [reflexivity|].
    f_equal. apply IH. destruct Hin as [H|H]; [congruence | assumption].
Qed.

Lemma mem_write_then_read : write_then_read mem_ops.
Proof.
  intros fs p t fs' H. simpl in H. inversion H; subst.
  apply mem_read_update_same.
Qed.

Lemma mem_write_keeps_others : write_keeps_others mem_ops.
Proof. intros fs p t q Hq. simpl. now apply mem_read_update_other. Qed.

Lemma mem_write_keeps_listing : write_keeps_listing mem_ops.
Proof.
  intros fs p t entries Hlist Hin. simpl in *.
  inversion Hlist; subst. f_equal. apply mem_update_names.
  rewrite map_map in Hin. exact Hin.
Qed.

Lemma mem_writes_succeed : writes_succeed mem_ops.
Proof. intros fs p t. reflexivity. Qed.

Lemma mem_prints_succeed : prints_succeed mem_ops.
Proof. intros c m. reflexivity. Qed.

Lemma mem_read_raises (fs : mem_fs) (p : string) (e : py_error) :
  mem_read fs p = Raised e -> e = FileNotFoundError.
Proof.
  induction fs as [|[name text] fs IH]; simpl.
  - intros H. now inversion H.
  - destruct (String.eqb name p); [discriminate | exact IH].
Qed.

Lemma mem_raises_exceptions : raises_exceptions mem_ops.
Proof.
  split.
  - intros fs p e H. simpl in H. apply mem_read_raises in H. now subst.
  - intros fs p t e H. discriminate.
Qed.

Lemma example_sort_permutes : sort_permutes example_path_ops.
Proof. intros l. apply Permutation_refl. Qed.

Lemma dir_example_listing :
  iterdir mem_ops dir_example
  = Returned [("a.md", true); ("b.MD", true); ("notes.txt", true)].
Proof. reflexivity. Qed.

Lemma dir_example_distinct :
  NoDup (map fst [("a.md", true); ("b.MD", true); ("notes.txt", true)]).
Proof.
  change (NoDup ["a.md"; "b.MD"; "notes.txt"]).
  repeat constructor; simpl; intuition discriminate.
Qed.

Lemma dir_example_found (c : log) :
  find_markdown_files mem_ops example_path_ops (dir_example, c)
  = ((dir_example, c), Returned ["a.md"; "b.MD"]).
Proof. reflexivity. Qed.

End MemFacts.

(** ** Runs in which a call of [print] raises *)

Section RaisingPrints.

(** A console that cannot encode the check mark: the [print] of
    [process_file] after the write raises, and so does the [print] of
    its handler, which holds a mark of its own.  [process_file] raises,
    the loop counts an error, and the file is written all the same. *)
Example print_raises_twice :
  process_all_files scripted_ops example_path_ops
    (dir_example,
     [None; Some UnicodeEncodeError; Some UnicodeEncodeError])
  = ((mem_update dir_example "a.md"
        (doc ["# A"; EmptyString; "```"; "x = 1"; "```"; EmptyString]),
      []),
     Returned (mk_stats 2 0 1)).
Proof. vm_compute. reflexivity. Qed.

(** The handler of [process_file] prints: the file is written, the
    result is [False], and no error is counted. *)
Example print_raises_once :
  process_all_files scripted_ops example_path_ops
    (dir_example, [None; Some UnicodeEncodeError])
  = ((mem_update dir_example "a.md"
        (doc ["# A"; EmptyString; "```"; "x = 1"; "```"; EmptyString]),
      []),
     Returned (mk_stats 2 0 0)).
Proof. vm_compute. reflexivity. Qed.

(** What is raised is not an instance of [Exception]: no handler runs,
    and [process_all_files] raises it. *)
Example print_interrupted :
  process_all_files scripted_ops example_path_ops
    (dir_example, [None; Some KeyboardInterrupt; None])
  = ((mem_update dir_example "a.md"
        (doc ["# A"; EmptyString; "```"; "x = 1"; "```"; EmptyString]),
      [None]),
     Raised KeyboardInterrupt).
Proof. vm_compute. reflexivity. Qed.

(** The [print] of the summary raises: the files are processed, and
    [process_all_files] returns no dictionary. *)
Example summary_raises :
  process_all_files scripted_ops example_path_ops
    (dir_example, [None; None; None; Some UnicodeEncodeError])
  = ((mem_update dir_example "a.md"
        (doc ["# A"; EmptyString; "```"; "x = 1"; "```"; EmptyString]),
      []),
     Raised UnicodeEncodeError).
Proof. vm_compute. reflexivity. Qed.

End RaisingPrints.

(** ** Further properties of the converter and of the file layer *)

Section FurtherProperties.


(** X2 (changed exactly when a block is detected).  The converter returns
    a text different from its input exactly when the detector finds a
    block in the input: the test [original_content != converted_content]
    of [process_file] and the test [if code_blocks] of the dry run agree. *)
Theorem convert_changes_iff_block (content : string) :
  convert_to_fenced_blocks content <> content
  <-> detect_indented_code_blocks content <> [].
Proof.
  split.
  - intros Hchanged Hnone. apply Hchanged.
    unfold convert_to_fenced_blocks. now rewrite Hnone.
  - apply convert_changed.
Qed.

(** X3 (frontmatter kept).  The converted document has the frontmatter
    range of the document: the same range when there is one, none when
    there is none. *)
Theorem frontmatter_after_convert (content : string) :
  detect_frontmatter_boundaries (convert_to_fenced_blocks content)
  = detect_frontmatter_boundaries content.
Proof.
  rewrite !detect_frontmatter_lines, split_convert.
  apply (frontmatter_stable content).
Qed.


(** X5 (last line).  The last line of the converted document is the last
    line of the document, or it is the closing fence of a block whose
    last line, not blank, ends the document.  So the converted document
    ends with an empty line, that is with a newline, exactly when the
    document does. *)
Theorem last_line_after_convert (content : string) :
  (last (split_nl (convert_to_fenced_blocks content)) EmptyString
   = last (split_nl content) EmptyString
   \/ (last (split_nl (convert_to_fenced_blocks content)) EmptyString = fence
       /\ is_blank (last (split_nl content) EmptyString) = false))
  /\ (last (split_nl (convert_to_fenced_blocks content)) EmptyString
      = EmptyString
      <-> last (split_nl content) EmptyString = EmptyString).
Proof.
  assert (Hmain :
            last (split_nl (convert_to_fenced_blocks content)) EmptyString
            = last (split_nl content) EmptyString
            \/ (last (split_nl (convert_to_fenced_blocks content)) EmptyString
                = fence
                /\ is_blank (last (split_nl content) EmptyString) = false)).
  { rewrite split_convert. unfold converted_lines.
    assert (Hl : last (split_nl content) EmptyString
                 = last (firstn (body_start content) (split_nl content)
                         ++ skipn (body_start content) (split_nl content))
                     EmptyString)
      by now rewrite firstn_skipn.
    rewrite Hl.
    destruct (skipn (body_start content) (split_nl content))
      as [|l rest] eqn:Ebody.
    - left. reflexivity.
    - rewrite (last_app_r _ (rebuild (body_start content) Prose (l :: rest)))
        by (apply rebuild_not_nil; discriminate).
      rewrite (last_app_r _ (l :: rest)) by discriminate.
      apply (rebuild_last (l :: rest) (body_start content) Prose).
      discriminate. }
  split; [exact Hmain|].
  destruct Hmain as [Heq|[Hfence Hblank]].
  - now rewrite Heq.
  - split.
    + intros H. rewrite H in Hfence. discriminate.
    + intros H. rewrite H in Hblank. discriminate.
Qed.

Context {FS C E : Type} (io : file_ops FS C E) (po : path_ops).

(** X6 (a modified file).  When [process_file] returns [True], the file
    could be read, its text has an indented block, and, a text written
    without an exception being the text read afterwards, the file now
    holds the converted text, which differs from the text read. *)
Theorem process_file_true (fs fs' : FS) (c c' : C) (p : string) :
  write_then_read io ->
  process_file io p (fs, c) = ((fs', c'), Returned true) ->
  exists t,
    read_text io fs p = Returned t
    /\ detect_indented_code_blocks t <> []
    /\ convert_to_fenced_blocks t <> t
    /\ read_text io fs' p = Returned (convert_to_fenced_blocks t).
Proof.
  intros Hread Htrue.
  destruct (process_file_true_inv io fs fs' c c' p Htrue)
    as (t & Hr & Hd & Hw).
  exists t. repeat split; try assumption.
  - now apply convert_changed.
  - now apply (Hread fs p).
Qed.

(** X7 (no needless write).  When the file cannot be read, or its text
    has no indented block, [process_file] leaves the file system as it
    is, whatever it returns or raises, and its result is not [True].  Its
    result is [False] when no call of [print] raises and what a read or
    a write raises is an instance of [Exception]. *)
Theorem process_file_idle (fs : FS) (c : C) (p : string) :
  has_block io fs p = false ->
  files_after (process_file io p (fs, c)) = fs
  /\ outcome (process_file io p (fs, c)) <> Returned true
  /\ (prints_succeed io -> raises_exceptions io ->
      outcome (process_file io p (fs, c)) = Returned false).
Proof.
  intros Hnone.
  destruct (process_file_no_block io fs c p Hnone) as [Hfs Hout].
  split; [exact Hfs|]. split; [exact Hout|].
  intros Hp Hexc.
  destruct (process_file_idle_false io fs c p Hnone Hp Hexc) as [c' Hr].
  now rewrite Hr.
Qed.

(** X8 (second run on a file).  After a run of [process_file] that
    returned [True], a text written without an exception being the text
    read afterwards, a second run on the same file, from any state of the
    console, leaves the file system as it is and does not return [True];
    it returns [False] when no call of [print] raises. *)
Theorem process_file_again (fs fs' : FS) (c c' c2 : C) (p : string) :
  write_then_read io ->
  process_file io p (fs, c) = ((fs', c'), Returned true) ->
  files_after (process_file io p (fs', c2)) = fs'
  /\ outcome (process_file io p (fs', c2)) <> Returned true
  /\ (prints_succeed io ->
      outcome (process_file io p (fs', c2)) = Returned false).
Proof.
  intros Hread Htrue.
  destruct (process_file_true_inv io fs fs' c c' p Htrue)
    as (t & _ & _ & Hw).
  pose proof (Hread fs p _ fs' Hw) as Hr.
  assert (Hnone : has_block io fs' p = false).
  { unfold has_block. now rewrite Hr, no_block_after_convert. }
  destruct (process_file_no_block io fs' c2 p Hnone) as [Hfs Hout].
  split; [exact Hfs|]. split; [exact Hout|].
  intros Hp.
  now rewrite (process_file_unchanged io fs' c2 p _ Hr
                 (no_block_after_convert t) Hp).
Qed.

(** X9 (the counters).  When [process_all_files] returns its dictionary,
    [total] is the number of markdown files found, and [processed] and
    [errors] together are at most [total].  When no call of [print]
    raises, [errors] is 0: [process_file] then handles every instance of
    [Exception] itself, a failed read or write included, and the [except]
    branch of the loop does not run.  When moreover the directory can be
    listed and what a read or a write raises is an instance of
    [Exception], [process_all_files] does return its dictionary. *)
Theorem process_all_files_counts :
  (forall s s' st,
      process_all_files io po s = (s', Returned st) ->
      exists files,
        find_markdown_files io po s = (s, Returned files)
        /\ total st = List.length files
        /\ processed st + errors st <= total st)
  /\ (prints_succeed io ->
      forall s s' st,
        process_all_files io po s = (s', Returned st) -> errors st = 0)
  /\ (prints_succeed io -> raises_exceptions io ->
      forall s files,
        find_markdown_files io po s = (s, Returned files) ->
        exists s' st, process_all_files io po s = (s', Returned st)).
Proof.
  split; [|split].
  - intros [fs c] s' st H.
    rewrite process_all_files_listed in H.
    rewrite find_markdown_files_listed.
    destruct (iterdir io fs) as [entries|e]; [|discriminate].
    exists (markdown_files_among po entries). split; [reflexivity|].
    apply process_found_inv in H as (Htotal & s0 & s1 & Hloop).
    split; [exact Htotal|].
    apply process_loop_counts in Hloop. lia.
  - intros Hp [fs c] s' st H.
    rewrite process_all_files_listed in H.
    destruct (iterdir io fs) as [entries|e]; [|discriminate].
    apply process_found_inv in H as (_ & s0 & s1 & Hloop).
    now apply (process_loop_no_error io _ Hp) in Hloop.
  - intros Hp Hexc [fs c] files H.
    rewrite find_markdown_files_listed in H.
    rewrite process_all_files_listed.
    destruct (iterdir io fs) as [entries|e]; [|discriminate].
    destruct (process_loop_returns io (markdown_files_among po entries)
                Hp Hexc 0 0
                (fs, fst (print_out io c
                            (Msg_found
                               (List.length
                                  (markdown_files_among po entries))))))
      as ([fs1 c2] & counts & Hloop).
    destruct (process_found_run io _ fs fs1 c c2 counts Hp Hloop)
      as [c' Hrun].
    eauto.
Qed.

(** X10 (other files).  Writing one file leaving what is read from the
    others, [process_all_files] leaves what is read from every path that
    is not one of the markdown files found, whatever it returns or
    raises. *)
Theorem process_all_files_others (fs : FS) (c : C) (q : string) :
  write_keeps_others io ->
  (forall files,
      find_markdown_files io po (fs, c) = ((fs, c), Returned files) ->
      ~ In q files) ->
  read_text io (files_after (process_all_files io po (fs, c))) q
  = read_text io fs q.
Proof.
  intros Hothers Hq. rewrite process_all_files_listed.
  specialize (Hq (match iterdir io fs with
                  | Returned entries => markdown_files_among po entries
                  | Raised _ => []
                  end)).
  rewrite find_markdown_files_listed in Hq.
  destruct (iterdir io fs) as [entries|e]; [|reflexivity].
  specialize (Hq eq_refl).
  apply (keeps_process_found io
           (fun f => read_text io f q = read_text io fs q)
           (markdown_files_among po entries)); [|reflexivity].
  intros p f t Hp Hf. rewrite Hothers; [exact Hf|].
  intros ->. contradiction.
Qed.

(** X11 (the run).  Assume that a text written without an exception is
    the text read afterwards, that writing one file leaves what is read
    from the others, that no write and no call of [print] raises, that
    what a read or a write raises is an instance of [Exception], that
    [sorted] permutes its argument, and that the directory can be listed
    and its names are distinct.  Then [process_all_files] returns its dictionary, in which
    [total] is the number of markdown files found, [processed] the
    number of these whose text had an indented block, and [errors] 0; and
    afterwards every markdown file found that could be read holds its
    converted text, and one that could not be read still cannot. *)
Theorem process_all_files_converts (fs : FS) (c : C)
  (entries : list (string * bool)) :
  write_then_read io -> write_keeps_others io -> writes_succeed io ->
  prints_succeed io -> raises_exceptions io -> sort_permutes po ->
  iterdir io fs = Returned entries -> NoDup (map fst entries) ->
  exists fs' c' st,
    process_all_files io po (fs, c) = ((fs', c'), Returned st)
    /\ total st = List.length (markdown_files_among po entries)
    /\ processed st
       = List.length
           (filter (has_block io fs) (markdown_files_among po entries))
    /\ errors st = 0
    /\ forall p, In p (markdown_files_among po entries) ->
         read_text io fs' p = converted_text (read_text io fs p).
Proof. apply process_all_files_run. Qed.

(** X12 (second run on the directory).  Under the assumptions of X11,
    and when writing a file of the directory leaves its listing, after a
    run of [process_all_files] that returned its dictionary a second
    run, from any state of the console, returns the same [total] with
    [processed] 0 and [errors] 0, and leaves the file system as the
    first run left it. *)
Theorem process_all_files_again (fs fs1 : FS) (c c1 c2 : C)
  (st1 : stats) :
  write_then_read io -> write_keeps_others io -> writes_succeed io ->
  write_keeps_listing io ->
  prints_succeed io -> raises_exceptions io -> sort_permutes po ->
  (forall entries,
      iterdir io fs = Returned entries -> NoDup (map fst entries)) ->
  process_all_files io po (fs, c) = ((fs1, c1), Returned st1) ->
  exists c3,
    process_all_files io po (fs1, c2)
    = ((fs1, c3), Returned (mk_stats (total st1) 0 0)).
Proof.
  intros Hread Hothers Hw Hlisting Hp Hexc Hsort Hnd Hfirst.
  destruct (iterdir io fs) as [entries|e] eqn:Hlist;
    [|rewrite process_all_files_listed, Hlist in Hfirst; discriminate].
  specialize (Hnd entries eq_refl).
  destruct (markdown_files_among_distinct po entries Hsort Hnd)
    as [_ Hnames].
  destruct (process_all_files_run io po fs c entries
              Hread Hothers Hw Hp Hexc Hsort Hlist Hnd)
    as (fs' & c' & st & Hrun & Htotal & _ & _ & Hall).
  rewrite Hfirst in Hrun. inversion Hrun; subst fs' c' st.
  assert (Hlist1 : iterdir io fs1 = Returned entries).
  { assert (Hfs1 : fs1 = files_after (process_all_files io po (fs, c)))
      by now rewrite Hfirst.
    rewrite Hfs1, process_all_files_listed, Hlist.
    apply (keeps_process_found io
             (fun f => iterdir io f = Returned entries)
             (markdown_files_among po entries)); [|exact Hlist].
    intros p f t Hin Hf. apply Hlisting; [exact Hf|].
    now apply Hnames. }
  rewrite process_all_files_listed, Hlist1.
  destruct (process_loop_idle io (markdown_files_among po entries) fs1
              Hp Hexc
              (fun p Hin => has_block_after_convert io fs fs1 p
                              (Hall p Hin))
              0 0
              (fst (print_out io c2
                      (Msg_found
                         (List.length (markdown_files_among po entries))))))
    as [c4 Hloop].
  destruct (process_found_run io _ fs1 fs1 c2 c4 (0, 0) Hp Hloop)
    as [c3 Hrun2].
  exists c3. rewrite Hrun2, Htotal. reflexivity.
Qed.

End FurtherProperties.

(** ** The further properties on the directory of the examples *)

Section FurtherExamples.

(** The file [a.md] of the example, which has one block, is modified. *)
Lemma process_file_true_witness :
  exists t,
    read_text mem_ops dir_example "a.md" = Returned t
    /\ detect_indented_code_blocks t <> []
    /\ convert_to_fenced_blocks t <> t
    /\ read_text mem_ops
         (files_after (process_file mem_ops "a.md" (dir_example, [])))
         "a.md"
       = Returned (convert_to_fenced_blocks t).
Proof.
  apply (process_file_true mem_ops dir_example
           (files_after (process_file mem_ops "a.md" (dir_example, [])))
           [] [Msg_processed "a.md"] "a.md" mem_write_then_read).
  vm_compute. reflexivity.
Defined.

(** The file [b.MD] has no block, and there is no file [c.md]: each is
    left as it is, with the result [False]. *)
Lemma process_file_idle_witness :
  (files_after (process_file mem_ops "b.MD" (dir_example, []))
   = dir_example
   /\ outcome (process_file mem_ops "b.MD" (dir_example, []))
      = Returned false)
  /\ (files_after (process_file mem_ops "c.md" (dir_example, []))
      = dir_example
      /\ outcome (process_file mem_ops "c.md" (dir_example, []))
         = Returned false).
Proof.
  split.
  - destruct (process_file_idle mem_ops dir_example [] "b.MD")
      as (Hfs & _ & Hout); [vm_compute; reflexivity|].
    split; [exact Hfs|].
    exact (Hout mem_prints_succeed mem_raises_exceptions).
  - destruct (process_file_idle mem_ops dir_example [] "c.md")
      as (Hfs & _ & Hout); [vm_compute; reflexivity|].
    split; [exact Hfs|].
    exact (Hout mem_prints_succeed mem_raises_exceptions).
Defined.

(** The file [a.md], once modified, is not modified again. *)
Lemma process_file_again_witness :
  files_after
    (process_file mem_ops "a.md"
       (files_after (process_file mem_ops "a.md" (dir_example, [])), []))
  = files_after (process_file mem_ops "a.md" (dir_example, []))
  /\ outcome
       (process_file mem_ops "a.md"
          (files_after (process_file mem_ops "a.md" (dir_example, [])), []))
     = Returned false.
Proof.
  destruct (process_file_again mem_ops dir_example
              (files_after (process_file mem_ops "a.md" (dir_example, [])))
              [] [Msg_processed "a.md"] [] "a.md" mem_write_then_read)
    as (Hfs & _ & Hout); [vm_compute; reflexivity|].
  split; [exact Hfs | exact (Hout mem_prints_succeed)].
Defined.

(** The run on the example returns its dictionary, which counts its two
    markdown files and no error. *)
Lemma process_all_files_counts_witness :
  exists s' st,
    process_all_files mem_ops example_path_ops (dir_example, [])
    = (s', Returned st)
    /\ total st = 2 /\ processed st + errors st <= 2 /\ errors st = 0.
Proof.
  destruct (process_all_files_counts mem_ops example_path_ops)
    as (Hcount & Hnone & Hreturns).
  destruct (Hreturns mem_prints_succeed mem_raises_exceptions
              (dir_example, []) ["a.md"; "b.MD"] (dir_example_found []))
    as (s' & st & Hrun).
  exists s', st. split; [exact Hrun|].
  destruct (Hcount _ _ _ Hrun) as (files & Hfound & Htotal & Hle).
  rewrite dir_example_found in Hfound. inversion Hfound; subst files.
  cbn [List.length] in Htotal.
  split; [exact Htotal|]. split; [now rewrite <- Htotal|].
  exact (Hnone mem_prints_succeed _ _ _ Hrun).
Defined.

(** The file [notes.txt], indented as it is, is not a markdown file and
    is left as it is. *)
Lemma process_all_files_others_witness :
  read_text mem_ops
    (files_after
       (process_all_files mem_ops example_path_ops (dir_example, [])))
    "notes.txt"
  = read_text mem_ops dir_example "notes.txt".
Proof.
  apply (process_all_files_others mem_ops example_path_ops dir_example
           [] "notes.txt" mem_write_keeps_others).
  intros files Hfound. rewrite dir_example_found in Hfound.
  inversion Hfound; subst files.
  intros [H|[H|[]]]; discriminate.
Defined.

(** The two markdown files of the example: one of them has a block. *)
Lemma process_all_files_converts_witness :
  exists fs' c' st,
    process_all_files mem_ops example_path_ops (dir_example, [])
    = ((fs', c'), Returned st)
    /\ total st
       = List.length
           (markdown_files_among example_path_ops
              [("a.md", true); ("b.MD", true); ("notes.txt", true)])
    /\ processed st
       = List.length
           (filter (has_block mem_ops dir_example)
              (markdown_files_among example_path_ops
                 [("a.md", true); ("b.MD", true); ("notes.txt", true)]))
    /\ errors st = 0
    /\ forall p,
         In p (markdown_files_among example_path_ops
                 [("a.md", true); ("b.MD", true); ("notes.txt", true)]) ->
         read_text mem_ops fs' p
         = converted_text (read_text mem_ops dir_example p).
Proof.
  apply (process_all_files_converts mem_ops example_path_ops dir_example
           [] [("a.md", true); ("b.MD", true); ("notes.txt", true)]
           mem_write_then_read mem_write_keeps_others mem_writes_succeed
           mem_prints_succeed mem_raises_exceptions example_sort_permutes
           dir_example_listing dir_example_distinct).
Defined.

(** A second run on the example counts its two markdown files and
    modifies none. *)
Lemma process_all_files_again_witness :
  exists c3,
    process_all_files mem_ops example_path_ops
      (mem_update dir_example "a.md"
         (doc ["# A"; EmptyString; "```"; "x = 1"; "```"; EmptyString]),
       [])
    = ((mem_update dir_example "a.md"
          (doc ["# A"; EmptyString; "```"; "x = 1"; "```"; EmptyString]),
        c3),
       Returned (mk_stats 2 0 0)).
Proof.
  apply (process_all_files_again mem_ops example_path_ops dir_example
           (mem_update dir_example "a.md"
              (doc ["# A"; EmptyString; "```"; "x = 1"; "```"; EmptyString]))
           []
           (snd (fst (process_all_files mem_ops example_path_ops
                        (dir_example, []))))
           [] (mk_stats 2 1 0)
           mem_write_then_read mem_write_keeps_others mem_writes_succeed
           mem_write_keeps_listing mem_prints_succeed mem_raises_exceptions
           example_sort_permutes).
  - intros entries Hlist. rewrite dir_example_listing in Hlist.
    inversion Hlist; subst entries. exact dir_example_distinct.
  - vm_compute. reflexivity.
Defined.

End FurtherExamples.

(** ** Further properties of the scanner *)

Section FurtherScanProperties.

(** X13 (frontmatter skipped).  Up to the first line after the
    frontmatter the loop variables are as they were initialised: a fence
    line or an indented line inside the frontmatter neither toggles the
    fence state nor opens a block. *)
Theorem frontmatter_leaves_state (content : string) (j : nat) :
  j <= body_start content ->
  state_at content j = init_state.
Proof.
  intros Hj. unfold state_at. apply scan_loop_frontmatter.
  intros i Hi. rewrite in_frontmatter_body. apply Nat.ltb_lt.
  pose proof (firstn_le_length j (split_nl content)). lia.
Qed.

(** The fence line 1 of the frontmatter does not toggle the fence state,
    and the block of line 4 is found. *)
Lemma frontmatter_leaves_state_witness :
  state_at doc_fence_in_frontmatter 4 = init_state
  /\ detect_indented_code_blocks doc_fence_in_frontmatter
     = [(4, 4, "    code")].
Proof.
  split; [|reflexivity].
  apply (frontmatter_leaves_state doc_fence_in_frontmatter 4).
  vm_compute. repeat constructor.
Defined.

(** X14 (well-formed replacement).  No line that the rewriter puts
    between the two fences of a block is itself a fence line: the fenced
    block written for a detected block is closed by its own closing
    fence, not earlier. *)
Theorem fenced_content_has_no_fence (content : string) (b : span)
  (l : string) :
  In b (detect_indented_code_blocks content) ->
  In l (split_nl (unindent_code (span_content b))) ->
  is_fence l = false.
Proof.
  intros Hb Hl.
  destruct (detect_spans_ok content) as [Hok _].
  pose proof (proj1 (Forall_forall _ _) Hok b Hb)
    as (pre & core & post & c & cs & Hlines & Hcore & _ & _ & Hcont & _
        & _ & Hall).
  assert (Hnf : newline_free core).
  { pose proof (split_nl_newline_free content) as H.
    rewrite Hlines in H.
    apply Forall_app in H as [_ H]. now apply Forall_app in H as [H _]. }
  rewrite Hcont, split_unindent_code in Hl.
  rewrite split_join in Hl by (assumption || (rewrite Hcore; discriminate)).
  apply in_map_iff in Hl as (x & <- & Hx).
  rewrite is_fence_unindent_line.
  now destruct (proj1 (Forall_forall _ _) Hall x Hx).
Qed.

(** The block of lines 3 to 5 of the example. *)
Lemma fenced_content_has_no_fence_witness :
  is_fence "b" = false.
Proof.
  apply (fenced_content_has_no_fence doc_two_blocks
           (3, 5, doc ["    a"; EmptyString; "    b"]) "b").
  - vm_compute. now left.
  - vm_compute. right. right. now left.
Defined.

End FurtherScanProperties.
